(** * Liveblocks client: the client factory, the wire codes and the CRDT node kernel

    A shallow embedding of
    - [createClient] with its room pool ([getRoom], [enter], [leave]),
      [getThrottleDelayFromOptions] and [prepareAuthentication];
    - the [ClientMsgCode] enum and the [ClientMsg] union;
    - [AbstractCrdt] and [LiveRegister].

    JavaScript values that the code inspects at run time ([typeof], [||],
    [!], [== null]) are kept as a tagged union; numbers are IEEE 754
    binary64 values, as in the language. *)

From Stdlib Require Import ZArith Bool List.
From Stdlib Require Import Floats.
From stdpp Require Import gmap strings pretty.
Import ListNotations.

Local Open Scope string_scope.

(** ** JavaScript values and exceptions *)

Module Js.

(** Identity of a heap object (a function, a room, a CRDT node). *)
Definition ObjId := positive.

Inductive JsValue :=
| JUndefined
| JNull
| JBoolean (b : bool)
| JNumber (f : float)
| JString (s : string)
| JFunction (fn : ObjId)
| JObject (o : ObjId).

(** The [typeof] operator. *)
Definition typeof (v : JsValue) : string :=
  match v with
  | JUndefined => "undefined"
  | JNull => "object"
  | JBoolean _ => "boolean"
  | JNumber _ => "number"
  | JString _ => "string"
  | JFunction _ => "function"
  | JObject _ => "object"
  end.

(** [ToBoolean]: the values that count as true in [if], [!] and [||]. *)
Definition truthy (v : JsValue) : bool :=
  match v with
  | JUndefined | JNull => false
  | JBoolean b => b
  | JNumber f => negb (PrimFloat.eqb f 0%float || PrimFloat.is_nan f)
  | JString s => negb (String.eqb s "")
  | JFunction _ | JObject _ => true
  end.

(** [a || b] *)
Definition or_else (a b : JsValue) : JsValue := if truthy a then a else b.

(** Result of evaluating an expression or a call: a value, or a thrown
    [Error] with its message. *)
Inductive Outcome (A : Type) :=
| Ret (a : A)
| Throw (message : string).
Arguments Ret {A} a.
Arguments Throw {A} message.

Definition is_Ret {A} (o : Outcome A) : bool :=
  match o with Ret _ => true | Throw _ => false end.

(** Code that reads and writes mutable state of type [S] and may throw.
    What was written before a [throw] stays written, as in the language. *)
Definition StateExn (S A : Type) : Type := S -> Outcome A * S.

#[export] Instance StateExn_ret {S} : MRet (StateExn S) :=
  fun A (a : A) (s : S) => (Ret a, s).

#[export] Instance StateExn_bind {S} : MBind (StateExn S) :=
  fun A B (k : A -> StateExn S B) (m : StateExn S A) (s : S) =>
    match m s with
    | (Ret a, s') => k a s'
    | (Throw e, s') => (Throw e, s')
    end.

Definition throw {S A} (message : string) : StateExn S A :=
  fun s => (Throw message, s).

Definition get {S} : StateExn S S := fun s => (Ret s, s).

Definition modify {S} (f : S -> S) : StateExn S unit := fun s => (Ret tt, f s).

(** A computation that only throws or returns, run inside stateful code. *)
Definition lift {S A} (o : Outcome A) : StateExn S A := fun s => (o, s).

Lemma if_orb_r {A} (b : bool) (x y : A) : (if b || true then x else y) = x.
Proof. destruct b; reflexivity. Qed.

End Js.
Import Js.

(** ** Comparison of binary64 numbers *)

Module Number.

(** [80 <= f && f <= 1000], the range the error message names. *)
Definition between (lo hi f : float) : bool :=
  PrimFloat.leb lo f && PrimFloat.leb f hi.

Lemma SFcompare_antisym x y c :
  SFcompare x y = Some c -> SFcompare y x = Some (CompOpp c).
Proof.
  destruct x as [sx|sx| |sx mx ex], y as [sy|sy| |sy my ey]; simpl;
    try discriminate; intros [= <-];
    try (destruct sx; try destruct sy; reflexivity);
    try (destruct sy; reflexivity).
  destruct sx, sy; try reflexivity;
    rewrite (Z.compare_antisym ex ey); destruct (ex ?= ey)%Z; simpl;
    try reflexivity;
    rewrite (Pos.compare_cont_antisym mx my Eq); reflexivity.
Qed.

Lemma SFcompare_defined x y :
  x <> S754_nan -> y <> S754_nan -> exists c, SFcompare x y = Some c.
Proof. destruct x, y; simpl; try congruence; eauto. Qed.

Lemma is_nan_spec f : PrimFloat.is_nan f = true <-> Prim2SF f = S754_nan.
Proof.
  unfold PrimFloat.is_nan. rewrite FloatAxioms.eqb_spec. unfold SFeqb.
  destruct (Prim2SF f) as [s|s| |s m e]; simpl; try (split; congruence).
  - destruct s; simpl; split; congruence.
  - destruct s; rewrite Z.compare_refl, Pos.compare_cont_refl; simpl;
      split; congruence.
Qed.

Lemma leb_not_ltb a b : PrimFloat.leb a b = true -> PrimFloat.ltb b a = false.
Proof.
  rewrite FloatAxioms.leb_spec, FloatAxioms.ltb_spec. unfold SFleb, SFltb.
  destruct (SFcompare (Prim2SF a) (Prim2SF b)) as [c|] eqn:E; [|discriminate].
  rewrite (SFcompare_antisym _ _ _ E). destruct c; simpl; congruence.
Qed.

Lemma not_ltb_leb a b :
  PrimFloat.is_nan a = false -> PrimFloat.is_nan b = false ->
  PrimFloat.ltb b a = false -> PrimFloat.leb a b = true.
Proof.
  intros Ha Hb. rewrite FloatAxioms.leb_spec, FloatAxioms.ltb_spec. unfold SFleb, SFltb.
  assert (Prim2SF a <> S754_nan) as Na
    by (intros E; apply is_nan_spec in E; congruence).
  assert (Prim2SF b <> S754_nan) as Nb
    by (intros E; apply is_nan_spec in E; congruence).
  destruct (SFcompare_defined _ _ Nb Na) as [c E]. rewrite E.
  rewrite (SFcompare_antisym _ _ _ E). destruct c; simpl; congruence.
Qed.

(** Every comparison with NaN is false. *)
Lemma nan_unordered f g :
  PrimFloat.is_nan f = true ->
  PrimFloat.ltb f g = false /\ PrimFloat.ltb g f = false /\
  PrimFloat.leb f g = false /\ PrimFloat.leb g f = false.
Proof.
  intros H. apply is_nan_spec in H.
  rewrite !FloatAxioms.ltb_spec, !FloatAxioms.leb_spec, H. unfold SFltb, SFleb. simpl.
  destruct (Prim2SF g); auto.
Qed.

(** A number is inside [[lo, hi]] exactly when it is neither NaN, nor
    below [lo], nor above [hi]. *)
Lemma between_iff lo hi f :
  PrimFloat.is_nan lo = false -> PrimFloat.is_nan hi = false ->
  between lo hi f = true <->
  PrimFloat.is_nan f = false /\
  PrimFloat.ltb f lo = false /\ PrimFloat.ltb hi f = false.
Proof.
  intros Hlo Hhi. unfold between. rewrite andb_true_iff. split.
  - intros [H1 H2]. repeat split; auto using leb_not_ltb.
    destruct (PrimFloat.is_nan f) eqn:N; [|reflexivity].
    destruct (nan_unordered f lo N) as (_ & _ & _ & E). congruence.
  - intros (N & H1 & H2). split; apply not_ltb_leb; assumption.
Qed.

End Number.

(** ** The client factory *)

Module Client.

Record ClientOptions := {
  throttle : JsValue;
  publicApiKey : JsValue;
  authEndpoint : JsValue;
  publicAuthorizeEndpoint : JsValue;
  liveblocksServer : JsValue;
  WebSocketPolyfill : JsValue;
  fetchPolyfill : JsValue
}.

(** An options object with no property set. *)
Definition no_options : ClientOptions :=
  {| throttle := JUndefined; publicApiKey := JUndefined;
     authEndpoint := JUndefined; publicAuthorizeEndpoint := JUndefined;
     liveblocksServer := JUndefined; WebSocketPolyfill := JUndefined;
     fetchPolyfill := JUndefined |}.

Definition throttle_error : string :=
  "throttle should be a number between 80 and 1000.".

(** [v < bound] and [v > bound] for a [v] already known to be a number. *)
Definition number_lt (v : JsValue) (bound : float) : bool :=
  match v with JNumber f => PrimFloat.ltb f bound | _ => false end.

Definition number_gt (v : JsValue) (bound : float) : bool :=
  match v with JNumber f => PrimFloat.ltb bound f | _ => false end.

Definition getThrottleDelayFromOptions (options : ClientOptions) : Outcome JsValue :=
  match throttle options with
  | JUndefined => Ret (JNumber 100%float)
  | t =>
      if negb (String.eqb (typeof t) "number")
         || number_lt t 80%float
         || number_gt t 1000%float
      then Throw throttle_error
      else Ret t
  end.

Inductive Authentication :=
| AuthPublic (publicApiKey : string) (url : JsValue)
| AuthPrivate (url : string)
| AuthCustom (callback : ObjId).

Definition default_public_authorize_endpoint : string :=
  "https://liveblocks.io/api/public/authorize".

Definition documentation_url : string :=
  "https://liveblocks.io/docs/api-reference/liveblocks-client#createClient".

Definition invalid_options_error : string :=
  "Invalid Liveblocks client options. For more information: https://liveblocks.io/docs/api-reference/liveblocks-client#createClient".

Definition prepareAuthentication (clientOptions : ClientOptions) : Outcome Authentication :=
  match publicApiKey clientOptions, authEndpoint clientOptions with
  | JString key, _ =>
      Ret (AuthPublic key
             (or_else (publicAuthorizeEndpoint clientOptions)
                      (JString default_public_authorize_endpoint)))
  | _, JString url => Ret (AuthPrivate url)
  | _, JFunction callback => Ret (AuthCustom callback)
  | _, _ => Throw invalid_options_error
  end.

(** *** The room pool *)

(** The public room object handed to the application. *)
Record Room := { room_obj : ObjId }.

(** First argument of [createRoom]. *)
Record RoomInit := {
  init_defaultPresence : JsValue;
  init_defaultStorageRoot : JsValue
}.

(** Second argument of [createRoom]. *)
Record RoomContext := {
  ctx_room : string;
  ctx_throttleDelay : JsValue;
  ctx_WebSocketPolyfill : JsValue;
  ctx_fetchPolyfill : JsValue;
  ctx_liveblocksServer : JsValue;
  ctx_authentication : Authentication
}.

(** Modelled from the spec: [InternalRoom] is declared in [./room], which is
    not among the sources. An internal room owns its public [room] and was
    built from the two arguments of [createRoom]. What [connect] and
    [disconnect] do inside the room (the connection machine of the spec) is
    not modelled: the calls are recorded in the order they are made. *)
Record InternalRoom := {
  room : Room;
  room_init : RoomInit;
  room_context : RoomContext
}.

Inductive RoomCall :=
| CallCreateRoom (r : Room) (init : RoomInit) (context : RoomContext)
| CallConnect (r : Room)
| CallDisconnect (r : Room).

(** Second argument of [enter]. *)
Record EnterOptions := {
  defaultPresence : JsValue;
  defaultStorageRoot : JsValue;
  DO_NOT_USE_withoutConnecting : JsValue
}.

(** The default [options = {}] of [enter]. *)
Definition no_enter_options : EnterOptions :=
  {| defaultPresence := JUndefined; defaultStorageRoot := JUndefined;
     DO_NOT_USE_withoutConnecting := JUndefined |}.

(** The host: whether [window] and [document] are defined, and whether
    each, when it is, has an [addEventListener] that can be called (a host
    may define [window] without it). *)
Record Env := {
  window_defined : bool;
  document_defined : bool;
  window_listens : bool;
  document_listens : bool
}.

(** [TypeError], thrown by the call of a property that is not a function. *)
Definition not_a_function : string := "TypeError".

(** What the closures returned by [createClient] share. *)
Record ClientState := {
  clientOptions : ClientOptions;
  throttleDelay : JsValue;
  rooms : gmap string InternalRoom;
  listeners : list string;
  next_obj : ObjId;
  calls : list RoomCall
}.

Definition set_rooms (f : gmap string InternalRoom -> gmap string InternalRoom)
    (c : ClientState) : ClientState :=
  {| clientOptions := clientOptions c; throttleDelay := throttleDelay c;
     rooms := f (rooms c); listeners := listeners c;
     next_obj := next_obj c; calls := calls c |}.

Definition record_call (e : RoomCall) (c : ClientState) : ClientState :=
  {| clientOptions := clientOptions c; throttleDelay := throttleDelay c;
     rooms := rooms c; listeners := listeners c;
     next_obj := next_obj c; calls := calls c ++ [e] |}.

Definition allocate (c : ClientState) : ClientState :=
  {| clientOptions := clientOptions c; throttleDelay := throttleDelay c;
     rooms := rooms c; listeners := listeners c;
     next_obj := Pos.succ (next_obj c); calls := calls c |}.

(** Modelled from the spec: [createRoom] of [./room] builds the room of the
    spec's client pool. It allocates the room object, keeps its two
    arguments and does not fail; it reads nothing of the pool. *)
Definition createRoom (init : RoomInit) (context : RoomContext)
    : StateExn ClientState InternalRoom :=
  c ← get;
  let r := {| room_obj := next_obj c |} in
  modify allocate;;
  modify (record_call (CallCreateRoom r init context));;
  mret {| room := r; room_init := init; room_context := context |}.

Definition connect (r : InternalRoom) : StateExn ClientState unit :=
  modify (record_call (CallConnect (room r))).

Definition disconnect (r : InternalRoom) : StateExn ClientState unit :=
  modify (record_call (CallDisconnect (room r))).

Definition default_liveblocks_server : string := "wss://liveblocks.net/v5".

Definition getRoom (roomId : string) : StateExn ClientState (option Room) :=
  c ← get;
  match rooms c !! roomId with
  | Some internalRoom => mret (Some (room internalRoom))
  | None => mret None
  end.

Definition enter (roomId : string) (options : EnterOptions)
    : StateExn ClientState Room :=
  c ← get;
  match rooms c !! roomId with
  | Some existingInternalRoom => mret (room existingInternalRoom)
  | None =>
      authentication ← lift (prepareAuthentication (clientOptions c));
      newInternalRoom ←
        createRoom
          {| init_defaultPresence := defaultPresence options;
             init_defaultStorageRoot := defaultStorageRoot options |}
          {| ctx_room := roomId;
             ctx_throttleDelay := throttleDelay c;
             ctx_WebSocketPolyfill := WebSocketPolyfill (clientOptions c);
             ctx_fetchPolyfill := fetchPolyfill (clientOptions c);
             ctx_liveblocksServer :=
               or_else (liveblocksServer (clientOptions c))
                       (JString default_liveblocks_server);
             ctx_authentication := authentication |};
      modify (set_rooms (insert roomId newInternalRoom));;
      (if negb (truthy (DO_NOT_USE_withoutConnecting options))
       then connect newInternalRoom
       else mret tt);;
      mret (room newInternalRoom)
  end.

Definition leave (roomId : string) : StateExn ClientState unit :=
  c ← get;
  match rooms c !! roomId with
  | Some r =>
      disconnect r;;
      modify (set_rooms (delete roomId))
  | None => mret tt
  end.

(** The state the closures start from: an empty pool, and the listeners
    registered on [window] and [document] where those exist. The two
    callbacks only call [onNavigatorOnline] and [onVisibilityChange] on the
    pooled rooms; they read the pool and do not write it. *)
Definition initial_state (options : ClientOptions) (env : Env) (delay : JsValue)
    : ClientState :=
  {| clientOptions := options;
     throttleDelay := delay;
     rooms := ∅;
     listeners :=
       (if window_defined env then ["online"] else [])
       ++ (if document_defined env then ["visibilitychange"] else []);
     next_obj := 1%positive;
     calls := [] |}.

Definition createClient (options : ClientOptions) (env : Env) : Outcome ClientState :=
  match getThrottleDelayFromOptions options with
  | Throw e => Throw e
  | Ret delay =>
      if window_defined env && negb (window_listens env)
      then Throw not_a_function
      else if document_defined env && negb (document_listens env)
      then Throw not_a_function
      else Ret (initial_state options env delay)
  end.

(** The calls an application can make on a client. *)
Inductive ClientCall :=
| DoGetRoom (roomId : string)
| DoEnter (roomId : string) (options : EnterOptions)
| DoLeave (roomId : string).

Definition perform (call : ClientCall) (c : ClientState) : ClientState :=
  match call with
  | DoGetRoom roomId => snd (getRoom roomId c)
  | DoEnter roomId options => snd (enter roomId options c)
  | DoLeave roomId => snd (leave roomId c)
  end.

(** The states a client created from [options] passes through. The options
    object is the one the application passed; it is taken not to be
    assigned to afterwards. *)
Inductive reachable (options : ClientOptions) (env : Env) : ClientState -> Prop :=
| reachable_created c :
    createClient options env = Ret c -> reachable options env c
| reachable_call c call :
    reachable options env c -> reachable options env (perform call c).

(** Options whose [throttle] is NaN. *)
Definition nan_throttle_options : ClientOptions :=
  {| throttle := JNumber PrimFloat.nan; publicApiKey := JString "pk_X";
     authEndpoint := JUndefined; publicAuthorizeEndpoint := JUndefined;
     liveblocksServer := JUndefined; WebSocketPolyfill := JUndefined;
     fetchPolyfill := JUndefined |}.

Definition browser : Env :=
  {| window_defined := true; document_defined := true;
     window_listens := true; document_listens := true |}.

(** [{ publicApiKey: "pk_X" }] *)
Definition public_key_options : ClientOptions :=
  {| throttle := JUndefined; publicApiKey := JString "pk_X";
     authEndpoint := JUndefined; publicAuthorizeEndpoint := JUndefined;
     liveblocksServer := JUndefined; WebSocketPolyfill := JUndefined;
     fetchPolyfill := JUndefined |}.

(** [{ publicApiKey: "pk_X", authEndpoint: "/api/auth" }] *)
Definition both_credentials : ClientOptions :=
  {| throttle := JUndefined; publicApiKey := JString "pk_X";
     authEndpoint := JString "/api/auth"; publicAuthorizeEndpoint := JUndefined;
     liveblocksServer := JUndefined; WebSocketPolyfill := JUndefined;
     fetchPolyfill := JUndefined |}.

(** An option is provided when the options object gives it a value. *)
Definition provided (v : JsValue) : bool :=
  match v with JUndefined => false | _ => true end.

Definition exactly_one_credential (options : ClientOptions) : bool :=
  xorb (provided (publicApiKey options)) (provided (authEndpoint options)).

(** The internal room [enter] builds for [roomId] in client state [c], once
    [prepareAuthentication] has returned [authentication]. *)
Definition new_room (c : ClientState) (roomId : string) (options : EnterOptions)
    (authentication : Authentication) : InternalRoom :=
  {| room := {| room_obj := next_obj c |};
     room_init :=
       {| init_defaultPresence := defaultPresence options;
          init_defaultStorageRoot := defaultStorageRoot options |};
     room_context :=
       {| ctx_room := roomId;
          ctx_throttleDelay := throttleDelay c;
          ctx_WebSocketPolyfill := WebSocketPolyfill (clientOptions c);
          ctx_fetchPolyfill := fetchPolyfill (clientOptions c);
          ctx_liveblocksServer :=
            or_else (liveblocksServer (clientOptions c))
                    (JString default_liveblocks_server);
          ctx_authentication := authentication |} |}.

(** [{ DO_NOT_USE_withoutConnecting: true }] *)
Definition without_connecting : EnterOptions :=
  {| defaultPresence := JUndefined; defaultStorageRoot := JUndefined;
     DO_NOT_USE_withoutConnecting := JBoolean true |}.

(** The client of [createClient({ publicApiKey: "pk_X" })] after
    [enter("r1")]. *)
Definition entered_r1 : ClientState :=
  perform (DoEnter "r1" no_enter_options)
          (initial_state public_key_options browser (JNumber 100%float)).

(** What holds of every state a client passes through. *)
Record pool_invariant (options : ClientOptions) (env : Env) (c : ClientState)
    : Prop := {
  inv_options : clientOptions c = options;
  inv_created :
    createClient options env = Ret (initial_state options env (throttleDelay c));
  inv_allocated : forall roomId r,
    rooms c !! roomId = Some r -> (room_obj (room r) < next_obj c)%positive;
  inv_authenticated : forall roomId r,
    rooms c !! roomId = Some r ->
    prepareAuthentication options = Ret (ctx_authentication (room_context r))
}.

(** *** The throttle option *)

Lemma typeof_number v : typeof v = "number" <-> exists f, v = JNumber f.
Proof.
  split; [|intros [f ->]; reflexivity].
  destruct v; simpl; try discriminate. eauto.
Qed.

Lemma typeof_string v : typeof v = "string" <-> exists s, v = JString s.
Proof.
  split; [|intros [f ->]; reflexivity].
  destruct v; simpl; try discriminate. eauto.
Qed.

Lemma typeof_function v : typeof v = "function" <-> exists fn, v = JFunction fn.
Proof.
  split; [|intros [f ->]; reflexivity].
  destruct v; simpl; try discriminate. eauto.
Qed.

Lemma throttle_undefined options :
  throttle options = JUndefined ->
  getThrottleDelayFromOptions options = Ret (JNumber 100%float).
Proof. unfold getThrottleDelayFromOptions. intros ->. reflexivity. Qed.

Lemma throttle_number options f :
  throttle options = JNumber f ->
  getThrottleDelayFromOptions options =
  if PrimFloat.ltb f 80%float || PrimFloat.ltb 1000%float f
  then Throw throttle_error else Ret (JNumber f).
Proof. unfold getThrottleDelayFromOptions. intros ->. reflexivity. Qed.

Lemma throttle_in_range options f :
  throttle options = JNumber f ->
  Number.between 80%float 1000%float f = true ->
  getThrottleDelayFromOptions options = Ret (JNumber f).
Proof.
  intros Ht Hr. rewrite (throttle_number _ _ Ht).
  apply Number.between_iff in Hr as (_ & -> & ->); reflexivity.
Qed.

Lemma throttle_not_a_number options :
  throttle options <> JUndefined ->
  typeof (throttle options) <> "number" ->
  getThrottleDelayFromOptions options = Throw throttle_error.
Proof.
  unfold getThrottleDelayFromOptions.
  destruct (throttle options); simpl; congruence.
Qed.

Lemma throttle_out_of_range options f :
  throttle options = JNumber f ->
  PrimFloat.ltb f 80%float = true \/ PrimFloat.ltb 1000%float f = true ->
  getThrottleDelayFromOptions options = Throw throttle_error.
Proof.
  intros Ht Hr. rewrite (throttle_number _ _ Ht).
  destruct Hr as [-> | ->]; [reflexivity | apply if_orb_r].
Qed.

(** The whole behaviour of the throttle check: it returns in exactly three
    cases, the last of which the error message does not cover. *)
Lemma throttle_accepted_iff options v :
  getThrottleDelayFromOptions options = Ret v <->
  (throttle options = JUndefined /\ v = JNumber 100%float) \/
  (exists f, throttle options = JNumber f /\ v = JNumber f /\
             (Number.between 80%float 1000%float f = true \/
              PrimFloat.is_nan f = true)).
Proof.
  split.
  - destruct (throttle options) as [| | |f| | |] eqn:Ht;
      try (rewrite throttle_not_a_number by (rewrite Ht; simpl; congruence);
           discriminate).
    + rewrite throttle_undefined by assumption. intros [= <-]. auto.
    + rewrite (throttle_number _ _ Ht).
      destruct (PrimFloat.ltb f 80 || PrimFloat.ltb 1000 f) eqn:E;
        [discriminate|]. intros [= <-].
      apply orb_false_iff in E as [E1 E2].
      right. exists f. repeat split.
      destruct (PrimFloat.is_nan f) eqn:N; [auto|left].
      apply Number.between_iff; auto.
  - intros [[Ht ->] | (f & Ht & -> & [Hr | Hn])].
    + apply throttle_undefined, Ht.
    + apply throttle_in_range; assumption.
    + rewrite (throttle_number _ _ Ht).
      destruct (Number.nan_unordered f 80%float Hn) as (-> & _).
      destruct (Number.nan_unordered f 1000%float Hn) as (_ & -> & _).
      reflexivity.
Qed.

(** [createClient] fails with the error of the throttle check when that
    fails, before anything else is done. When the check passes and the host
    can register the listeners, the client that is created holds the delay
    and an empty pool; no room was created or connected. *)
Lemma createClient_throttle options env :
  match getThrottleDelayFromOptions options with
  | Throw e => createClient options env = Throw e
  | Ret delay =>
      (window_defined env = true -> window_listens env = true) ->
      (document_defined env = true -> document_listens env = true) ->
      exists c, createClient options env = Ret c /\
                throttleDelay c = delay /\ clientOptions c = options /\
                rooms c = ∅ /\ calls c = []
  end.
Proof.
  unfold createClient.
  destruct (getThrottleDelayFromOptions options); [|reflexivity].
  intros Hw Hd.
  destruct (window_defined env); [rewrite Hw by reflexivity|];
    (destruct (document_defined env); [rewrite Hd by reflexivity|]); simpl;
    (eexists; split; [reflexivity|]; simpl; auto).
Qed.

(** C1. [createClient] is claimed to use 100 ms when [throttle] is
    undefined, the number itself when it is within [80, 1000], and to throw
    "throttle should be a number between 80 and 1000." for every other
    value. The first two parts and the rejection of non-numbers and of
    numbers below 80 or above 1000 hold ([throttle_undefined],
    [throttle_in_range], [throttle_not_a_number], [throttle_out_of_range]).
    NaN is a number outside the range, and it is not rejected: both
    comparisons with it are false, so the client is created with NaN as its
    throttle delay. *)
Theorem createClient_accepts_NaN_throttle :
  typeof (throttle nan_throttle_options) = "number" /\
  Number.between 80%float 1000%float PrimFloat.nan = false /\
  getThrottleDelayFromOptions nan_throttle_options = Ret (JNumber PrimFloat.nan) /\
  exists c, createClient nan_throttle_options browser = Ret c /\
            throttleDelay c = JNumber PrimFloat.nan.
Proof.
  repeat split; try reflexivity.
  eexists. split; reflexivity.
Qed.

(** *** Authentication options *)

Lemma prepareAuthentication_public options key :
  publicApiKey options = JString key ->
  prepareAuthentication options =
  Ret (AuthPublic key (or_else (publicAuthorizeEndpoint options)
                               (JString default_public_authorize_endpoint))).
Proof. unfold prepareAuthentication. intros ->. reflexivity. Qed.

Lemma prepareAuthentication_throws_iff options :
  prepareAuthentication options = Throw invalid_options_error <->
  typeof (publicApiKey options) <> "string" /\
  typeof (authEndpoint options) <> "string" /\
  typeof (authEndpoint options) <> "function".
Proof.
  unfold prepareAuthentication.
  destruct (publicApiKey options), (authEndpoint options); simpl;
    split; try discriminate; try (intros (? & ? & ?); congruence);
    try (intros _; repeat split; discriminate); reflexivity.
Qed.

Lemma prepareAuthentication_error options message :
  prepareAuthentication options = Throw message ->
  message = invalid_options_error.
Proof.
  unfold prepareAuthentication.
  destruct (publicApiKey options), (authEndpoint options); congruence.
Qed.

(** C2, as the spec states it, fails: a client is created when both
    credentials are given (the public key then wins) and when none is. *)
Lemma createClient_succeeds_without_exactly_one_credential :
  (exactly_one_credential both_credentials = false /\
   is_Ret (createClient both_credentials browser) = true /\
   prepareAuthentication both_credentials =
     Ret (AuthPublic "pk_X" (JString default_public_authorize_endpoint))) /\
  (exactly_one_credential no_options = false /\
   is_Ret (createClient no_options browser) = true).
Proof. repeat split. Qed.

(** C2, amended. [createClient] does not look at the authentication
    options: options that agree on [throttle] are accepted or rejected
    together. [prepareAuthentication], which [enter] runs when it builds a
    room, fails exactly when [publicApiKey] is not a string and
    [authEndpoint] is neither a string nor a function; its only error is the
    one that ends with the documentation URL. In particular it throws when
    neither option is given, and when both are given it succeeds with public
    authentication. *)
Theorem authentication_options_checked_by_prepareAuthentication :
  (forall o1 o2 env, throttle o1 = throttle o2 ->
     is_Ret (createClient o1 env) = is_Ret (createClient o2 env)) /\
  (forall options,
     prepareAuthentication options = Throw invalid_options_error <->
     typeof (publicApiKey options) <> "string" /\
     typeof (authEndpoint options) <> "string" /\
     typeof (authEndpoint options) <> "function") /\
  (forall options message,
     prepareAuthentication options = Throw message ->
     message = "Invalid Liveblocks client options. For more information: "
               ++ documentation_url) /\
  (forall options,
     publicApiKey options = JUndefined -> authEndpoint options = JUndefined ->
     prepareAuthentication options = Throw invalid_options_error) /\
  (forall options key endpoint,
     publicApiKey options = JString key -> authEndpoint options = endpoint ->
     exists url, prepareAuthentication options = Ret (AuthPublic key url)).
Proof.
  split; [|split; [|split; [|split]]].
  - intros o1 o2 env H. unfold createClient, getThrottleDelayFromOptions.
    rewrite H.
    destruct (throttle o2) as [| | |f| | |]; simpl; try reflexivity;
      try (destruct (PrimFloat.ltb f 80 || PrimFloat.ltb 1000 f);
           [reflexivity|]);
      destruct (window_defined env && negb (window_listens env));
      try reflexivity;
      destruct (document_defined env && negb (document_listens env));
      reflexivity.
  - apply prepareAuthentication_throws_iff.
  - intros options message H.
    apply prepareAuthentication_error in H. subst. reflexivity.
  - intros options H1 H2. apply prepareAuthentication_throws_iff.
    rewrite H1, H2. simpl. repeat split; discriminate.
  - intros options key endpoint H _. eexists.
    apply prepareAuthentication_public, H.
Qed.

(** The values [||] does not keep. *)
Lemma truthy_false_iff v :
  truthy v = false <->
  v = JUndefined \/ v = JNull \/ v = JBoolean false \/ v = JString "" \/
  exists f, v = JNumber f /\
            (PrimFloat.eqb f 0%float = true \/ PrimFloat.is_nan f = true).
Proof.
  split.
  - destruct v as [| |b|f|s| |]; simpl; try discriminate; auto.
    + destruct b; [discriminate|auto].
    + intros H. apply negb_false_iff, orb_true_iff in H. eauto 10.
    + intros H. apply negb_false_iff in H.
      destruct (String.eqb_spec s ""); [subst; auto | discriminate].
  - intros [-> | [-> | [-> | [-> | (f & -> & H)]]]]; try reflexivity.
    simpl. apply negb_false_iff, orb_true_iff. exact H.
Qed.

(** C8. A string [publicApiKey] gives public authentication with that key,
    whose url is [publicAuthorizeEndpoint] when that option is set, that is,
    holds a value [||] keeps (anything but undefined, null, false, 0, NaN
    and the empty string), and the default public-authorize endpoint in each
    of those other cases; otherwise a string [authEndpoint] gives private
    authentication with that url; otherwise a function [authEndpoint] gives
    custom authentication with that callback. *)
Theorem prepareAuthentication_modes options :
  (forall key,
     publicApiKey options = JString key ->
     exists url,
       prepareAuthentication options = Ret (AuthPublic key url) /\
       (truthy (publicAuthorizeEndpoint options) = true ->
        url = publicAuthorizeEndpoint options) /\
       (forall endpoint, publicAuthorizeEndpoint options = JString endpoint ->
        endpoint <> "" -> url = JString endpoint) /\
       (publicAuthorizeEndpoint options = JUndefined ->
        url = JString "https://liveblocks.io/api/public/authorize") /\
       (truthy (publicAuthorizeEndpoint options) = false ->
        url = JString "https://liveblocks.io/api/public/authorize") /\
       (publicAuthorizeEndpoint options = JNull \/
        publicAuthorizeEndpoint options = JBoolean false \/
        publicAuthorizeEndpoint options = JString "" \/
        (exists f, publicAuthorizeEndpoint options = JNumber f /\
                   (PrimFloat.eqb f 0%float = true \/
                    PrimFloat.is_nan f = true)) ->
        url = JString "https://liveblocks.io/api/public/authorize")) /\
  (forall url,
     typeof (publicApiKey options) <> "string" ->
     authEndpoint options = JString url ->
     prepareAuthentication options = Ret (AuthPrivate url)) /\
  (forall callback,
     typeof (publicApiKey options) <> "string" ->
     authEndpoint options = JFunction callback ->
     prepareAuthentication options = Ret (AuthCustom callback)).
Proof.
  split; [|split].
  - intros key H. eexists. split; [apply prepareAuthentication_public, H|].
    unfold or_else. split; [|split; [|split; [|split]]].
    + intros ->. reflexivity.
    + intros endpoint -> Hne. simpl.
      destruct (String.eqb_spec endpoint ""); [contradiction|reflexivity].
    + intros ->. reflexivity.
    + intros ->. reflexivity.
    + intros Hfalsy.
      assert (truthy (publicAuthorizeEndpoint options) = false) as ->
        by (apply truthy_false_iff; tauto).
      reflexivity.
  - intros url Hk He. unfold prepareAuthentication. rewrite He.
    destruct (publicApiKey options); simpl in Hk; congruence.
  - intros callback Hk He. unfold prepareAuthentication. rewrite He.
    destruct (publicApiKey options); simpl in Hk; congruence.
Qed.

(** An empty [publicAuthorizeEndpoint] is not kept by [||]. *)
Remark prepareAuthentication_empty_endpoint options key :
  publicApiKey options = JString key ->
  publicAuthorizeEndpoint options = JString "" ->
  prepareAuthentication options =
  Ret (AuthPublic key (JString default_public_authorize_endpoint)).
Proof.
  intros Hk He. rewrite (prepareAuthentication_public _ _ Hk), He. reflexivity.
Qed.

(** *** The pool *)

Lemma enter_existing roomId options c existing :
  rooms c !! roomId = Some existing ->
  enter roomId options c = (Ret (room existing), c).
Proof.
  intros H. unfold enter, mbind, StateExn_bind, get. simpl. rewrite H.
  reflexivity.
Qed.

Lemma enter_invalid roomId options c message :
  rooms c !! roomId = None ->
  prepareAuthentication (clientOptions c) = Throw message ->
  enter roomId options c = (Throw message, c).
Proof.
  intros H Ha. unfold enter, mbind, StateExn_bind, get, lift. simpl.
  rewrite H. simpl. rewrite Ha. reflexivity.
Qed.

Lemma enter_new roomId options c authentication :
  rooms c !! roomId = None ->
  prepareAuthentication (clientOptions c) = Ret authentication ->
  let r := new_room c roomId options authentication in
  enter roomId options c =
  (Ret (room r),
   {| clientOptions := clientOptions c;
      throttleDelay := throttleDelay c;
      rooms := <[roomId := r]> (rooms c);
      listeners := listeners c;
      next_obj := Pos.succ (next_obj c);
      calls :=
        (calls c ++ [CallCreateRoom (room r) (room_init r) (room_context r)])
        ++ (if truthy (DO_NOT_USE_withoutConnecting options)
            then [] else [CallConnect (room r)]) |}).
Proof.
  intros H Ha. unfold enter, mbind, StateExn_bind, get, lift. simpl.
  rewrite H. simpl. rewrite Ha. simpl.
  destruct (truthy (DO_NOT_USE_withoutConnecting options)); simpl.
  - rewrite app_nil_r. reflexivity.
  - reflexivity.
Qed.

Lemma leave_pooled roomId c r :
  rooms c !! roomId = Some r ->
  leave roomId c =
  (Ret tt,
   {| clientOptions := clientOptions c;
      throttleDelay := throttleDelay c;
      rooms := delete roomId (rooms c);
      listeners := listeners c;
      next_obj := next_obj c;
      calls := calls c ++ [CallDisconnect (room r)] |}).
Proof.
  intros H. unfold leave, mbind, StateExn_bind, get. simpl. rewrite H.
  reflexivity.
Qed.

Lemma leave_absent roomId c :
  rooms c !! roomId = None -> leave roomId c = (Ret tt, c).
Proof.
  intros H. unfold leave, mbind, StateExn_bind, get. simpl. rewrite H.
  reflexivity.
Qed.

Lemma getRoom_pure roomId c :
  getRoom roomId c = (Ret (room <$> rooms c !! roomId), c).
Proof.
  unfold getRoom, mbind, StateExn_bind, get. simpl.
  destruct (rooms c !! roomId); reflexivity.
Qed.

Lemma createClient_returns options env c :
  createClient options env = Ret c ->
  getThrottleDelayFromOptions options = Ret (throttleDelay c) /\
  c = initial_state options env (throttleDelay c).
Proof.
  unfold createClient.
  destruct (getThrottleDelayFromOptions options); [|discriminate].
  destruct (window_defined env && negb (window_listens env)); [discriminate|].
  destruct (document_defined env && negb (document_listens env));
    [discriminate|].
  intros [= <-]. split; reflexivity.
Qed.

Lemma createClient_initial options env c :
  createClient options env = Ret c ->
  c = initial_state options env (throttleDelay c).
Proof. intros H. apply (createClient_returns _ _ _ H). Qed.

Lemma perform_invariant options env call c :
  pool_invariant options env c -> pool_invariant options env (perform call c).
Proof.
  intros [Ho Hc Hal Hau]. destruct call as [roomId|roomId eopts|roomId]; simpl.
  - rewrite getRoom_pure. simpl. split; assumption.
  - destruct (rooms c !! roomId) as [existing|] eqn:E.
    + rewrite (enter_existing _ _ _ _ E). simpl. split; assumption.
    + destruct (prepareAuthentication (clientOptions c)) as [auth|msg] eqn:A.
      * rewrite (enter_new _ _ _ _ E A). simpl. split; simpl; try assumption.
        -- intros k r. rewrite lookup_insert. case_decide.
           ++ intros [= <-]. simpl. lia.
           ++ intros Hk. apply Hal in Hk. lia.
        -- intros k r. rewrite lookup_insert. case_decide.
           ++ intros [= <-]. simpl. congruence.
           ++ apply Hau.
      * rewrite (enter_invalid _ _ _ _ E A). simpl. split; assumption.
  - destruct (rooms c !! roomId) as [r|] eqn:E.
    + rewrite (leave_pooled _ _ _ E). simpl. split; simpl; try assumption.
      * intros k r'. rewrite lookup_delete. case_decide; [discriminate|].
        apply Hal.
      * intros k r'. rewrite lookup_delete. case_decide; [discriminate|].
        apply Hau.
    + rewrite (leave_absent _ _ E). simpl. split; assumption.
Qed.

Lemma reachable_invariant options env c :
  reachable options env c -> pool_invariant options env c.
Proof.
  induction 1 as [c Hc | c call _ IH].
  - pose proof (createClient_initial _ _ _ Hc) as E.
    split.
    + rewrite E. reflexivity.
    + rewrite Hc. f_equal. exact E.
    + rewrite E. simpl. intros k r. rewrite lookup_empty. discriminate.
    + rewrite E. simpl. intros k r. rewrite lookup_empty. discriminate.
  - apply perform_invariant, IH.
Qed.

(** C6, as the spec states it, fails: a client built from options with no
    credential is created, and its [enter] on an id that is not pooled
    neither creates nor pools nor returns a room; it throws. *)
Lemma enter_throws_without_credentials :
  let c := initial_state no_options browser (JNumber 100%float) in
  createClient no_options browser = Ret c /\
  rooms c !! "r1" = None /\
  enter "r1" no_enter_options c = (Throw invalid_options_error, c) /\
  ~ (exists r c', enter "r1" no_enter_options c = (Ret r, c')).
Proof.
  repeat split.
  intros (r & c' & H). vm_compute in H. discriminate.
Qed.

(** C6, amended. If the pool holds a room under [roomId], [enter] returns it
    and changes nothing (no room is created or connected). Otherwise, when
    the client's options give an authentication mode, it creates a room,
    stores it under [roomId], calls [connect] on it unless
    [DO_NOT_USE_withoutConnecting] is set, and returns it; when they give
    none, it throws the error of [prepareAuthentication] and changes
    nothing. *)
Theorem enter_returns_pooled_or_creates roomId options c :
  (forall existing,
     rooms c !! roomId = Some existing ->
     enter roomId options c = (Ret (room existing), c)) /\
  (forall authentication,
     rooms c !! roomId = None ->
     prepareAuthentication (clientOptions c) = Ret authentication ->
     exists created c',
       enter roomId options c = (Ret (room created), c') /\
       created = new_room c roomId options authentication /\
       rooms c' = <[roomId := created]> (rooms c) /\
       calls c' =
         (calls c
          ++ CallCreateRoom (room created) (room_init created) (room_context created)
             :: (if truthy (DO_NOT_USE_withoutConnecting options)
                 then [] else [CallConnect (room created)]))%list) /\
  (forall message,
     rooms c !! roomId = None ->
     prepareAuthentication (clientOptions c) = Throw message ->
     enter roomId options c = (Throw message, c)).
Proof.
  split; [|split].
  - intros existing H. apply enter_existing, H.
  - intros authentication H Ha. do 2 eexists.
    split; [apply (enter_new _ _ _ _ H Ha)|]. simpl.
    split; [reflexivity|]. split; [reflexivity|].
    rewrite <- app_assoc. reflexivity.
  - intros message H Ha. apply enter_invalid; assumption.
Qed.



(** *** More on the pool *)

(** The room a recorded call is about. *)
Definition call_room (e : RoomCall) : Room :=
  match e with
  | CallCreateRoom r _ _ => r
  | CallConnect r => r
  | CallDisconnect r => r
  end.

(** How the pool and the recorded calls stay related. *)
Record pool_history (c : ClientState) : Prop := {
  hist_allocated : forall e,
    In e (calls c) -> (room_obj (call_room e) < next_obj c)%positive;
  hist_pooled : forall roomId r,
    rooms c !! roomId = Some r ->
    In (CallCreateRoom (room r) (room_init r) (room_context r)) (calls c) /\
    ~ In (CallDisconnect (room r)) (calls c);
  hist_injective : forall k1 k2 r1 r2,
    rooms c !! k1 = Some r1 -> rooms c !! k2 = Some r2 ->
    room r1 = room r2 -> k1 = k2;
  hist_created : forall r init context,
    In (CallCreateRoom r init context) (calls c) ->
    ~ In (CallDisconnect r) (calls c) ->
    exists roomId pooled, rooms c !! roomId = Some pooled /\ room pooled = r;
  hist_context : forall roomId r,
    rooms c !! roomId = Some r ->
    ctx_room (room_context r) = roomId /\
    ctx_throttleDelay (room_context r) = throttleDelay c /\
    ctx_WebSocketPolyfill (room_context r) = WebSocketPolyfill (clientOptions c) /\
    ctx_fetchPolyfill (room_context r) = fetchPolyfill (clientOptions c) /\
    ctx_liveblocksServer (room_context r) =
      or_else (liveblocksServer (clientOptions c))
              (JString default_liveblocks_server)
}.

(** The client of [createClient({ publicApiKey: "pk_X" })] after
    [enter("r1")] and [enter("r2", { DO_NOT_USE_withoutConnecting: true })]. *)
Definition entered_r1_r2 : ClientState :=
  perform (DoEnter "r2" without_connecting) entered_r1.

Lemma entered_r1_reachable : reachable public_key_options browser entered_r1.
Proof. apply reachable_call, reachable_created. reflexivity. Qed.

Lemma entered_r1_r2_reachable : reachable public_key_options browser entered_r1_r2.
Proof. apply reachable_call, entered_r1_reachable. Qed.

Lemma perform_history call c :
  pool_history c -> pool_history (perform call c).
Proof.
  intros [Hal Hpo Hin Hcr Hcx].
  destruct call as [roomId|roomId eopts|roomId]; simpl.
  - rewrite getRoom_pure. simpl. split; assumption.
  - destruct (rooms c !! roomId) as [existing|] eqn:E.
    { rewrite (enter_existing _ _ _ _ E). simpl. split; assumption. }
    destruct (prepareAuthentication (clientOptions c)) as [auth|msg] eqn:A.
    2:{ rewrite (enter_invalid _ _ _ _ E A). simpl. split; assumption. }
    rewrite (enter_new _ _ _ _ E A). simpl.
    set (r := new_room c roomId eopts auth).
    assert (forall e,
              In e ((calls c ++ [CallCreateRoom (room r) (room_init r) (room_context r)])
                    ++ (if truthy (DO_NOT_USE_withoutConnecting eopts)
                        then [] else [CallConnect (room r)])) ->
              In e (calls c) \/
              e = CallCreateRoom (room r) (room_init r) (room_context r) \/
              e = CallConnect (room r)) as Hcases.
    { intros e He. apply in_app_or in He as [He|He].
      - apply in_app_or in He as [He|[<-|[]]]; auto.
      - destruct (truthy _); simpl in He; [contradiction|].
        destruct He as [<-|[]]; auto. }
    assert (forall e, In e (calls c) -> call_room e <> room r) as Hold.
    { intros e He Heq. apply Hal in He. rewrite Heq in He. simpl in He. lia. }
    split; simpl.
    + intros e He. apply Hcases in He as [He|[->| ->]]; simpl.
      * apply Hal in He. lia.
      * lia.
      * lia.
    + intros k p. rewrite lookup_insert. case_decide.
      * intros [= <-]. split.
        -- apply in_or_app. left. apply in_or_app. right. left. reflexivity.
        -- intros He. apply Hcases in He as [He|[He|He]]; try discriminate.
           apply (Hold _ He). reflexivity.
      * intros Hk. destruct (Hpo _ _ Hk) as [H1 H2]. split.
        -- apply in_or_app. left. apply in_or_app. left. exact H1.
        -- intros He. apply Hcases in He as [He|[He|He]]; try discriminate.
           contradiction.
    + intros k1 k2 r1 r2. rewrite !lookup_insert.
      repeat case_decide; subst; try reflexivity.
      * intros [= <-] H2 Heq. destruct (Hpo _ _ H2) as [H2' _].
        exfalso. apply (Hold _ H2'). simpl. symmetry. exact Heq.
      * intros H1 [= <-] Heq. destruct (Hpo _ _ H1) as [H1' _].
        exfalso. apply (Hold _ H1'). simpl. exact Heq.
      * apply Hin.
    + intros q init context He Hnd.
      apply Hcases in He as [He|[He|He]]; try discriminate.
      * destruct (Hcr q init context He) as (k & p & Hk & Hp).
        { intros Hd. apply Hnd. apply in_or_app. left. apply in_or_app.
          left. exact Hd. }
        exists k, p. split; [|exact Hp]. rewrite lookup_insert_ne; [exact Hk|].
        intros <-. congruence.
      * injection He as -> _ _. exists roomId, r.
        split; [apply lookup_insert_eq | reflexivity].
    + intros k p. rewrite lookup_insert. case_decide.
      * intros [= <-]. subst. simpl. repeat split.
      * apply Hcx.
  - destruct (rooms c !! roomId) as [r|] eqn:E.
    2:{ rewrite (leave_absent _ _ E). simpl. split; assumption. }
    rewrite (leave_pooled _ _ _ E). simpl. split; simpl.
    + intros e He. apply in_app_or in He as [He|[<-|[]]].
      * apply Hal, He.
      * simpl. destruct (Hpo _ _ E) as [H1 _]. apply Hal in H1. exact H1.
    + intros k p. rewrite lookup_delete. case_decide; [discriminate|].
      intros Hk. destruct (Hpo _ _ Hk) as [H1 H2]. split.
      * apply in_or_app. left. exact H1.
      * intros He. apply in_app_or in He as [He|[He|[]]]; [contradiction|].
        injection He as He. symmetry in He.
        pose proof (Hin _ _ _ _ Hk E He). congruence.
    + intros k1 k2 r1 r2. rewrite !lookup_delete.
      repeat case_decide; try discriminate. apply Hin.
    + intros q init context He Hnd.
      apply in_app_or in He as [He|[He|[]]]; [|discriminate].
      destruct (Hcr q init context He) as (k & p & Hk & Hp).
      { intros Hd. apply Hnd. apply in_or_app. left. exact Hd. }
      exists k, p. split; [|exact Hp]. rewrite lookup_delete_ne; [exact Hk|].
      intros <-. apply Hnd. apply in_or_app. right. left.
      rewrite E in Hk. injection Hk as <-. rewrite Hp. reflexivity.
    + intros k p. rewrite lookup_delete. case_decide; [discriminate|].
      apply Hcx.
Qed.

Lemma reachable_history options env c :
  reachable options env c -> pool_history c.
Proof.
  induction 1 as [c Hc | c call _ IH].
  - rewrite (createClient_initial _ _ _ Hc). split; simpl.
    + intros e [].
    + intros k r. rewrite lookup_empty. discriminate.
    + intros k1 k2 r1 r2. rewrite lookup_empty. discriminate.
    + intros r init context [].
    + intros k r. rewrite lookup_empty. discriminate.
  - apply perform_history, IH.
Qed.



(** [leave] never throws; afterwards nothing is pooled under the id, and a
    second [leave] of the same id does nothing, calling [disconnect] on no
    room. *)
Theorem leave_is_idempotent roomId c :
  fst (leave roomId c) = Ret tt /\
  rooms (snd (leave roomId c)) !! roomId = None /\
  leave roomId (snd (leave roomId c)) = (Ret tt, snd (leave roomId c)).
Proof.
  destruct (rooms c !! roomId) as [r|] eqn:E.
  - rewrite (leave_pooled _ _ _ E). simpl.
    split; [reflexivity|]. split; [apply lookup_delete_eq|].
    apply leave_absent. simpl. apply lookup_delete_eq.
  - rewrite (leave_absent _ _ E). simpl.
    split; [reflexivity|]. split; [exact E|]. apply leave_absent, E.
Qed.

(** [enter] and [leave] of one id leave the pool as it is under every other
    id. *)
Theorem enter_and_leave_keep_other_rooms roomId other options c :
  other <> roomId ->
  rooms (snd (enter roomId options c)) !! other = rooms c !! other /\
  rooms (snd (leave roomId c)) !! other = rooms c !! other.
Proof.
  intros Hne. split.
  - destruct (rooms c !! roomId) as [existing|] eqn:E.
    + rewrite (enter_existing _ _ _ _ E). reflexivity.
    + destruct (prepareAuthentication (clientOptions c)) as [auth|msg] eqn:A.
      * rewrite (enter_new _ _ _ _ E A). simpl.
        apply lookup_insert_ne. congruence.
      * rewrite (enter_invalid _ _ _ _ E A). reflexivity.
  - destruct (rooms c !! roomId) as [r|] eqn:E.
    + rewrite (leave_pooled _ _ _ E). simpl.
      apply lookup_delete_ne. congruence.
    + rewrite (leave_absent _ _ E). reflexivity.
Qed.

Lemma enter_and_leave_keep_other_rooms_witness :
  "r1" <> "r2" /\
  rooms (snd (enter "r2" without_connecting entered_r1)) !! "r1" =
    rooms entered_r1 !! "r1" /\
  rooms (snd (leave "r2" entered_r1_r2)) !! "r1" = rooms entered_r1 !! "r1".
Proof.
  assert ("r1" <> "r2") as Hne by discriminate.
  split; [exact Hne|]. split.
  - exact (proj1 (enter_and_leave_keep_other_rooms "r2" "r1" without_connecting
                    entered_r1 Hne)).
  - rewrite (proj2 (enter_and_leave_keep_other_rooms "r2" "r1" without_connecting
                      entered_r1_r2 Hne)).
    vm_compute. reflexivity.
Defined.

(** Every pooled room was built for the id it is pooled under, with the
    throttle delay computed by [createClient], the polyfills of the options,
    the [liveblocksServer] option or, when that is not set, the default
    server, and the authentication mode the options give. *)
Theorem pooled_room_context options env c roomId r :
  reachable options env c ->
  rooms c !! roomId = Some r ->
  ctx_room (room_context r) = roomId /\
  getThrottleDelayFromOptions options = Ret (ctx_throttleDelay (room_context r)) /\
  ctx_WebSocketPolyfill (room_context r) = WebSocketPolyfill options /\
  ctx_fetchPolyfill (room_context r) = fetchPolyfill options /\
  ctx_liveblocksServer (room_context r) =
    (if truthy (liveblocksServer options) then liveblocksServer options
     else JString "wss://liveblocks.net/v5") /\
  prepareAuthentication options = Ret (ctx_authentication (room_context r)).
Proof.
  intros Hreach Hr.
  destruct (reachable_invariant _ _ _ Hreach) as [Ho Hc _ Hau].
  destruct (hist_context _ (reachable_history _ _ _ Hreach) _ _ Hr)
    as (H1 & H2 & H3 & H4 & H5).
  rewrite Ho in *. split; [exact H1|]. split.
  - rewrite H2. apply (createClient_returns _ _ _ Hc).
  - repeat split; try assumption. apply (Hau _ _ Hr).
Qed.

Lemma pooled_room_context_witness :
  reachable public_key_options browser entered_r1_r2 /\
  (exists r, rooms entered_r1_r2 !! "r2" = Some r /\
     ctx_room (room_context r) = "r2" /\
     ctx_liveblocksServer (room_context r) = JString "wss://liveblocks.net/v5").
Proof.
  split; [exact entered_r1_r2_reachable|].
  assert (rooms entered_r1_r2 !! "r2" =
          Some (new_room entered_r1 "r2" without_connecting
                  (AuthPublic "pk_X" (JString default_public_authorize_endpoint))))
    as Hr by (vm_compute; reflexivity).
  eexists. split; [exact Hr|].
  destruct (pooled_room_context _ _ _ _ _ entered_r1_r2_reachable Hr)
    as (H1 & _ & _ & _ & H5 & _).
  split; [exact H1 | exact H5].
Defined.

(** No room object is pooled under two ids. *)
Theorem pool_is_injective options env c k1 k2 r1 r2 :
  reachable options env c ->
  rooms c !! k1 = Some r1 -> rooms c !! k2 = Some r2 ->
  room r1 = room r2 -> k1 = k2.
Proof.
  intros Hreach. apply (hist_injective _ (reachable_history _ _ _ Hreach)).
Qed.

Lemma pool_is_injective_witness :
  exists r1 r2,
    rooms entered_r1_r2 !! "r1" = Some r1 /\
    rooms entered_r1_r2 !! "r2" = Some r2 /\
    room r1 <> room r2.
Proof.
  assert (rooms entered_r1_r2 !! "r1" =
          Some (new_room (initial_state public_key_options browser (JNumber 100%float))
                  "r1" no_enter_options
                  (AuthPublic "pk_X" (JString default_public_authorize_endpoint))))
    as H1 by (vm_compute; reflexivity).
  assert (rooms entered_r1_r2 !! "r2" =
          Some (new_room entered_r1 "r2" without_connecting
                  (AuthPublic "pk_X" (JString default_public_authorize_endpoint))))
    as H2 by (vm_compute; reflexivity).
  eexists _, _. split; [exact H1|]. split; [exact H2|].
  intros Heq.
  pose proof (pool_is_injective _ _ _ _ _ _ _ entered_r1_r2_reachable H1 H2 Heq)
    as Hk.
  discriminate Hk.
Defined.

(** The pool holds exactly the rooms that were created and on which
    [disconnect] was not called: no room is dropped from the pool without
    being disconnected, and none stays pooled after it. *)
Theorem pooled_iff_created_and_not_disconnected options env c r :
  reachable options env c ->
  (exists roomId pooled, rooms c !! roomId = Some pooled /\ room pooled = r) <->
  (exists init context, In (CallCreateRoom r init context) (calls c)) /\
  ~ In (CallDisconnect r) (calls c).
Proof.
  intros Hreach. pose proof (reachable_history _ _ _ Hreach) as Hh. split.
  - intros (k & p & Hk & <-). destruct (hist_pooled _ Hh _ _ Hk) as [H1 H2].
    split; [eauto | exact H2].
  - intros [(init & context & Hc) Hnd]. apply (hist_created _ Hh _ _ _ Hc Hnd).
Qed.

Lemma pooled_iff_created_and_not_disconnected_witness :
  reachable public_key_options browser (perform (DoLeave "r1") entered_r1_r2) /\
  ~ (exists roomId pooled,
       rooms (perform (DoLeave "r1") entered_r1_r2) !! roomId = Some pooled /\
       room pooled = {| room_obj := 1%positive |}) /\
  (exists roomId pooled,
       rooms (perform (DoLeave "r1") entered_r1_r2) !! roomId = Some pooled /\
       room pooled = {| room_obj := 2%positive |}).
Proof.
  assert (reachable public_key_options browser
            (perform (DoLeave "r1") entered_r1_r2)) as Hreach
    by apply reachable_call, entered_r1_r2_reachable.
  split; [exact Hreach|]. split.
  - intros Hp.
    apply (pooled_iff_created_and_not_disconnected _ _ _ _ Hreach) in Hp
      as [_ Hnd].
    apply Hnd. vm_compute. auto.
  - apply (pooled_iff_created_and_not_disconnected _ _ _ _ Hreach). split.
    + eexists _, _. vm_compute. do 2 right. left. reflexivity.
    + vm_compute. intros [H|[H|[H|[H|[]]]]]; discriminate.
Defined.

(** What [createClient] set up is never changed by [getRoom], [enter] or
    [leave]: the options, the listeners registered on [window] and
    [document] (none is ever removed), and the throttle delay, which is a
    number neither below 80 nor above 1000. *)
Theorem client_configuration_is_fixed options env c :
  reachable options env c ->
  clientOptions c = options /\
  getThrottleDelayFromOptions options = Ret (throttleDelay c) /\
  typeof (throttleDelay c) = "number" /\
  number_lt (throttleDelay c) 80%float = false /\
  number_gt (throttleDelay c) 1000%float = false /\
  listeners c =
    ((if window_defined env then ["online"] else [])
     ++ (if document_defined env then ["visibilitychange"] else []))%list.
Proof.
  intros Hreach.
  destruct (reachable_invariant _ _ _ Hreach) as [Ho Hc _ _].
  assert (getThrottleDelayFromOptions options = Ret (throttleDelay c)) as Ht.
  { apply (createClient_returns _ _ _ Hc). }
  split; [exact Ho|]. split; [exact Ht|].
  assert (typeof (throttleDelay c) = "number" /\
          number_lt (throttleDelay c) 80%float = false /\
          number_gt (throttleDelay c) 1000%float = false) as (T1 & T2 & T3).
  { revert Ht. unfold getThrottleDelayFromOptions.
    destruct (throttle options) as [| | |f| | |]; simpl; try discriminate.
    - intros [= <-]. repeat split.
    - destruct (PrimFloat.ltb f 80) eqn:E1; [discriminate|].
      destruct (PrimFloat.ltb 1000 f) eqn:E2; [discriminate|].
      intros [= <-]. simpl. auto. }
  repeat split; try assumption.
  clear -Hreach. induction Hreach as [c Hc | c call _ IH].
  - rewrite (createClient_initial _ _ _ Hc). reflexivity.
  - rewrite <- IH. destruct call as [roomId|roomId eopts|roomId]; simpl.
    + rewrite getRoom_pure. reflexivity.
    + destruct (rooms c !! roomId) as [existing|] eqn:E.
      * rewrite (enter_existing _ _ _ _ E). reflexivity.
      * destruct (prepareAuthentication (clientOptions c)) as [auth|msg] eqn:A.
        -- rewrite (enter_new _ _ _ _ E A). reflexivity.
        -- rewrite (enter_invalid _ _ _ _ E A). reflexivity.
    + destruct (rooms c !! roomId) as [r|] eqn:E.
      * rewrite (leave_pooled _ _ _ E). reflexivity.
      * rewrite (leave_absent _ _ E). reflexivity.
Qed.

Lemma client_configuration_is_fixed_witness :
  reachable public_key_options browser entered_r1_r2 /\
  throttleDelay entered_r1_r2 = JNumber 100%float /\
  listeners entered_r1_r2 = ["online"; "visibilitychange"].
Proof.
  split; [exact entered_r1_r2_reachable|].
  destruct (client_configuration_is_fixed _ _ _ entered_r1_r2_reachable)
    as (_ & Ht & _ & _ & _ & Hl).
  split; [|exact Hl].
  exact (f_equal (fun o => match o with Ret v => v | Throw _ => JUndefined end)
                 (eq_sym Ht)).
Defined.


(** [getRoom] after [enter] and after [leave]: the room [enter] returned is
    the one [getRoom] finds under that id, and after [leave] it finds
    none. *)
Theorem getRoom_after_enter_and_leave roomId c :
  (forall options r c1,
     enter roomId options c = (Ret r, c1) ->
     getRoom roomId c1 = (Ret (Some r), c1)) /\
  getRoom roomId (snd (leave roomId c)) = (Ret None, snd (leave roomId c)).
Proof.
  split.
  - intros options r c1 H. rewrite getRoom_pure.
    destruct (rooms c !! roomId) as [existing|] eqn:E.
    + rewrite (enter_existing _ _ _ _ E) in H. injection H as <- <-.
      rewrite E. reflexivity.
    + destruct (prepareAuthentication (clientOptions c)) as [auth|msg] eqn:A.
      * rewrite (enter_new _ _ _ _ E A) in H. injection H as <- <-.
        simpl. rewrite lookup_insert_eq. reflexivity.
      * rewrite (enter_invalid _ _ _ _ E A) in H. discriminate.
  - rewrite getRoom_pure.
    destruct (rooms c !! roomId) as [r|] eqn:E.
    + rewrite (leave_pooled _ _ _ E). simpl. rewrite lookup_delete_eq.
      reflexivity.
    + rewrite (leave_absent _ _ E). simpl. rewrite E. reflexivity.
Qed.



End Client.

(** ** Messages from the client to the server *)

Module Wire.

Inductive ClientMsgCode :=
| UPDATE_PRESENCE
| BROADCAST_EVENT
| FETCH_STORAGE
| UPDATE_STORAGE.

(** The number an enum member stands for. *)
Definition code (c : ClientMsgCode) : Z :=
  match c with
  | UPDATE_PRESENCE => 100
  | BROADCAST_EVENT => 103
  | FETCH_STORAGE => 200
  | UPDATE_STORAGE => 201
  end.

Section ClientMsg.

(** [Json] and [Op] are imported from [./Json] and [./Op]; [TPresence] is
    the type parameter of [ClientMsg]. *)
Context {TPresence Json Op : Type}.

Inductive ClientMsg :=
| BroadcastEventClientMsg (event : Json)
| UpdatePresenceClientMsg (data : TPresence) (targetActor : option float)
| UpdateStorageClientMsg (ops : list Op)
| FetchStorageClientMsg.

(** The [type] field of a message. *)
Definition type (m : ClientMsg) : ClientMsgCode :=
  match m with
  | BroadcastEventClientMsg _ => BROADCAST_EVENT
  | UpdatePresenceClientMsg _ _ => UPDATE_PRESENCE
  | UpdateStorageClientMsg _ => UPDATE_STORAGE
  | FetchStorageClientMsg => FETCH_STORAGE
  end.

Lemma code_inj c1 c2 : code c1 = code c2 -> c1 = c2.
Proof. destruct c1, c2; simpl; congruence. Qed.

(** C9. The client-to-server codes are UPDATE_PRESENCE = 100,
    BROADCAST_EVENT = 103, FETCH_STORAGE = 200 and UPDATE_STORAGE = 201, no
    other number is a code, and every [ClientMsg] has one of the four
    shapes, which its [type] tells: UPDATE_PRESENCE carries [data] and an
    optional [targetActor], BROADCAST_EVENT an [event], UPDATE_STORAGE a
    list of ops, FETCH_STORAGE nothing. *)
Theorem client_message_codes :
  code UPDATE_PRESENCE = 100%Z /\
  code BROADCAST_EVENT = 103%Z /\
  code FETCH_STORAGE = 200%Z /\
  code UPDATE_STORAGE = 201%Z /\
  (forall z : Z, (exists c, code c = z) <->
                 z = 100%Z \/ z = 103%Z \/ z = 200%Z \/ z = 201%Z) /\
  (forall m : ClientMsg,
     match code (type m) with
     | 100%Z => exists data targetActor, m = UpdatePresenceClientMsg data targetActor
     | 103%Z => exists event, m = BroadcastEventClientMsg event
     | 200%Z => m = FetchStorageClientMsg
     | 201%Z => exists ops, m = UpdateStorageClientMsg ops
     | _ => False
     end).
Proof.
  repeat (split; [reflexivity|]). split.
  - intros z. split.
    + intros [[] <-]; simpl; auto.
    + intros [-> | [-> | [-> | ->]]];
        [exists UPDATE_PRESENCE | exists BROADCAST_EVENT
        | exists FETCH_STORAGE | exists UPDATE_STORAGE]; reflexivity.
  - intros [event | data targetActor | ops | ]; simpl; eauto.
Qed.

End ClientMsg.

End Wire.

(** ** The CRDT node kernel and the register *)

Module Crdt.

(** Modelled from the spec: [OpCode] is declared in [./types], which is not
    among the sources; these are the operation kinds of the spec's CRDT
    engine. *)
Inductive OpCode :=
| CREATE_OBJECT
| CREATE_MAP
| CREATE_LIST
| CREATE_REGISTER
| UPDATE_OBJECT
| SET_PARENT_KEY
| DELETE_CRDT.

#[export] Instance OpCode_eq_dec : EqDecision OpCode.
Proof. solve_decision. Defined.

(** Reference to an object of the heap: a CRDT node or a [Doc]. *)
Definition Ref := ObjId.

(** The four private fields of [AbstractCrdt]; [None] is [undefined]. *)
Record AbstractCrdt := {
  __parent : option Ref;
  __doc : option Ref;
  __id : option string;
  __parentKey : option string
}.

(** The fields of a node that was just constructed. *)
Definition detached : AbstractCrdt :=
  {| __parent := None; __doc := None; __id := None; __parentKey := None |}.

(** The [Doc] interface, as far as the node kernel calls it; [D] is the
    state behind a [Doc] object. *)
Class Doc (D : Type) := {
  doc_roomId : D -> string;
  generateOpId : D -> string * D;
  addItem : string -> Ref -> D -> D;
  deleteItem : string -> D -> D
}.

(** [TypeError], thrown when a method is looked up on what is not an object
    of the expected class. *)
Definition type_error : string := "TypeError".

(** Truth value of an optional string: [undefined] and the empty string are
    false. *)
Definition truthy_string (s : option string) : bool :=
  match s with
  | Some s => negb (String.eqb s "")
  | None => false
  end.

Section Kernel.

(** [Json] and [StorageUpdate] come from [./types]; [Structure] is the
    state of a [LiveObject], [LiveMap] or [LiveList], whose classes are not
    among the sources. *)
Context {Json StorageUpdate Structure DocState : Type} `{!Doc DocState}.

(** An operation object: [type], [opId], [id] and the fields that only
    some kinds have. *)
Record Op := {
  op_type : OpCode;
  opId : option string;
  op_id : string;
  op_parentId : option string;
  op_parentKey : option string;
  op_data : option Json
}.

Inductive ApplyResult :=
| Modified (reverse : list Op) (modified : StorageUpdate)
| NotModified.

Record SerializedRegister := {
  ser_parentId : option string;
  ser_parentKey : option string;
  ser_data : Json
}.

(** What a class adds to the fields of [AbstractCrdt]. *)
Inductive Payload :=
| RegisterPayload (_data : Json)
| StructurePayload (s : Structure).

Record Node := { base : AbstractCrdt; payload : Payload }.

Record Store := {
  nodes : gmap Ref Node;
  docs : gmap Ref DocState;
  next_ref : Ref
}.

Definition set_nodes (f : gmap Ref Node -> gmap Ref Node) (h : Store) : Store :=
  {| nodes := f (nodes h); docs := docs h; next_ref := next_ref h |}.

Definition set_docs (f : gmap Ref DocState -> gmap Ref DocState) (h : Store) : Store :=
  {| nodes := nodes h; docs := f (docs h); next_ref := next_ref h |}.

(** Read the object [this]. *)
Definition node (this : Ref) : StateExn Store Node :=
  h ← get;
  match nodes h !! this with
  | Some n => mret n
  | None => throw type_error
  end.

(** Assign to the private fields of [this]. *)
Definition update_base (this : Ref) (f : AbstractCrdt -> AbstractCrdt)
    : StateExn Store unit :=
  modify (set_nodes (alter (fun n => {| base := f (base n); payload := payload n |}) this)).

(** Call a method of the [Doc] object [doc]. *)
Definition doc_call {A} (doc : Ref) (method : DocState -> A * DocState)
    : StateExn Store A :=
  h ← get;
  match docs h !! doc with
  | Some d =>
      let (a, d') := method d in
      modify (set_docs (insert doc d'));;
      mret a
  | None => throw type_error
  end.

(** Read a property of the [Doc] object [doc]. *)
Definition doc_read {A} (doc : Ref) (property : DocState -> A) : StateExn Store A :=
  h ← get;
  match docs h !! doc with
  | Some d => mret (property d)
  | None => throw type_error
  end.

(** [nn(value, errmsg)] is imported from [./assert], which is not among the
    sources: it is a parameter. It is given a value that may be null or
    undefined ([None]) and an error message, and returns a value or throws;
    nothing more is known of it. *)
Variable nn : forall A : Type, option A -> string -> Outcome (option A).

(** *** AbstractCrdt *)

Definition _getParentKeyOrThrow (this : Ref) : StateExn Store string :=
  n ← node this;
  match __parentKey (base n) with
  | None => throw "Parent key is missing"
  | Some key => mret key
  end.

Definition _doc (this : Ref) : StateExn Store (option Ref) :=
  n ← node this; mret (__doc (base n)).

Definition roomId (this : Ref) : StateExn Store (option string) :=
  n ← node this;
  match __doc (base n) with
  | Some doc =>
      id ← doc_read doc doc_roomId;
      mret (Some id)
  | None => mret None
  end.

Definition _id (this : Ref) : StateExn Store (option string) :=
  n ← node this; mret (__id (base n)).

Definition _parent (this : Ref) : StateExn Store (option Ref) :=
  n ← node this; mret (__parent (base n)).

Definition _parentKey (this : Ref) : StateExn Store (option string) :=
  n ← node this; mret (__parentKey (base n)).

(** The [_detachChild] of the live structures, which [AbstractCrdt] leaves
    abstract: it takes the structure and the child. *)
Variable structure_detachChild : Ref -> Ref -> StateExn Store ApplyResult.

Definition LiveRegister_detachChild (this _crdt : Ref) : StateExn Store ApplyResult :=
  throw "Method not implemented.".

(** [parent._detachChild(crdt)], by the class of [parent]. *)
Definition _detachChild (parent crdt : Ref) : StateExn Store ApplyResult :=
  p ← node parent;
  match payload p with
  | RegisterPayload _ => LiveRegister_detachChild parent crdt
  | StructurePayload _ => structure_detachChild parent crdt
  end.

Definition AbstractCrdt_apply (this : Ref) (op : Op) (_isLocal : bool)
    : StateExn Store ApplyResult :=
  match op_type op with
  | DELETE_CRDT =>
      parent ← _parent this;
      parentKey ← _parentKey this;
      match parent, parentKey with
      | Some parent, Some _ => _detachChild parent this
      | _, _ => mret NotModified
      end
  | _ => mret NotModified
  end.

Definition _setParentLink (this parent : Ref) (key : string) : StateExn Store unit :=
  n ← node this;
  match __parent (base n) with
  | Some current =>
      if bool_decide (current ≠ parent)
      then throw "Cannot attach parent if it already exist"
      else mret tt
  | None => mret tt
  end;;
  update_base this (fun b =>
    {| __parent := __parent b; __doc := __doc b; __id := __id b;
       __parentKey := Some key |});;
  update_base this (fun b =>
    {| __parent := Some parent; __doc := __doc b; __id := __id b;
       __parentKey := __parentKey b |}).

Definition _attach (this : Ref) (id : string) (doc : Ref) : StateExn Store unit :=
  n ← node this;
  (if truthy_string (__id (base n)) || bool_decide (is_Some (__doc (base n)))
   then throw "Cannot attach if CRDT is already attached"
   else mret tt);;
  doc_call doc (fun d => (tt, addItem id this d));;
  update_base this (fun b =>
    {| __parent := __parent b; __doc := __doc b; __id := Some id;
       __parentKey := __parentKey b |});;
  update_base this (fun b =>
    {| __parent := __parent b; __doc := Some doc; __id := __id b;
       __parentKey := __parentKey b |}).

Definition _detach (this : Ref) : StateExn Store unit :=
  n ← node this;
  match __doc (base n), __id (base n) with
  | Some doc, Some id =>
      if truthy_string (Some id)
      then doc_call doc (fun d => (tt, deleteItem id d))
      else mret tt
  | _, _ => mret tt
  end;;
  update_base this (fun b =>
    {| __parent := None; __doc := __doc b; __id := __id b;
       __parentKey := __parentKey b |});;
  update_base this (fun b =>
    {| __parent := __parent b; __doc := None; __id := __id b;
       __parentKey := __parentKey b |}).

(** *** LiveRegister *)

(** [new LiveRegister(data)]: a new object with no parent, doc, id or key. *)
Definition LiveRegister_new (data : Json) : StateExn Store Ref :=
  h ← get;
  let this := next_ref h in
  modify (fun h =>
    {| nodes := <[this := {| base := detached; payload := RegisterPayload data |}]> (nodes h);
       docs := docs h;
       next_ref := Pos.succ (next_ref h) |});;
  mret this.

(** The getter [data]. *)
Definition data (this : Ref) : StateExn Store Json :=
  n ← node this;
  match payload n with
  | RegisterPayload d => mret d
  | StructurePayload _ => throw type_error
  end.

(** The static [_deserialize]; its unused [_parentToChildren] is left out. *)
Definition _deserialize (id : string) (item : SerializedRegister) (doc : Ref)
    : StateExn Store Ref :=
  register ← LiveRegister_new (ser_data item);
  _attach register id doc;;
  mret register.

Definition serialize_error : string :=
  "Cannot serialize register if parentId or parentKey is undefined".

(** [parentId] and [parentKey] are [None] when the caller passes null or
    undefined, which the method tests for. *)
Definition _serialize (this : Ref) (parentId parentKey : option string)
    (doc : option Ref) : StateExn Store (list Op) :=
  id ← _id this;
  match id, parentId, parentKey with
  | Some id, Some parentId, Some parentKey =>
      generated ←
        match doc with
        | Some doc => o ← doc_call doc generateOpId; mret (Some o)
        | None => mret None
        end;
      d ← data this;
      mret [ {| op_type := CREATE_REGISTER;
                opId := generated;
                op_id := id;
                op_parentId := Some parentId;
                op_parentKey := Some parentKey;
                op_data := Some d |} ]
  | _, _, _ => throw serialize_error
  end.

Definition _toSerializedCrdt (this : Ref) : StateExn Store SerializedRegister :=
  parent ← _parent this;
  parentId ← match parent with Some p => _id p | None => mret None end;
  parentId ← lift (nn string parentId
                      "Cannot serialize Register if parentId is missing");
  parentKey ← _parentKey this;
  parentKey ← lift (nn string parentKey
                       "Cannot serialize Register if parentKey is missing");
  d ← data this;
  mret {| ser_parentId := parentId; ser_parentKey := parentKey; ser_data := d |}.

Definition LiveRegister_attachChild (this : Ref) (_op : Op) : StateExn Store ApplyResult :=
  throw "Method not implemented.".

Definition LiveRegister_apply (this : Ref) (op : Op) (isLocal : bool)
    : StateExn Store ApplyResult :=
  AbstractCrdt_apply this op isLocal.

(** Everything that can be called on a [LiveRegister]: its own members and
    those it inherits. *)
Inductive RegisterMember :=
| Get_data
| Call_serialize (parentId parentKey : option string) (doc : option Ref)
| Call_toSerializedCrdt
| Call_attachChild (op : Op)
| Call_detachChild (crdt : Ref)
| Call_apply (op : Op) (isLocal : bool)
| Call_getParentKeyOrThrow
| Get_doc
| Get_roomId
| Get_id
| Get_parent
| Get_parentKey
| Call_setParentLink (parent : Ref) (key : string)
| Call_attach (id : string) (doc : Ref)
| Call_detach.

(** The store after a member of the register [this] was used. *)
Definition after (m : RegisterMember) (this : Ref) (h : Store) : Store :=
  match m with
  | Get_data => snd (data this h)
  | Call_serialize parentId parentKey doc => snd (_serialize this parentId parentKey doc h)
  | Call_toSerializedCrdt => snd (_toSerializedCrdt this h)
  | Call_attachChild op => snd (LiveRegister_attachChild this op h)
  | Call_detachChild crdt => snd (LiveRegister_detachChild this crdt h)
  | Call_apply op isLocal => snd (LiveRegister_apply this op isLocal h)
  | Call_getParentKeyOrThrow => snd (_getParentKeyOrThrow this h)
  | Get_doc => snd (_doc this h)
  | Get_roomId => snd (roomId this h)
  | Get_id => snd (_id this h)
  | Get_parent => snd (_parent this h)
  | Get_parentKey => snd (_parentKey this h)
  | Call_setParentLink parent key => snd (_setParentLink this parent key h)
  | Call_attach id doc => snd (_attach this id doc h)
  | Call_detach => snd (_detach this h)
  end.

(** The store after a sequence of uses, each of a member on some register. *)
Definition after_all (uses : list (RegisterMember * Ref)) (h : Store) : Store :=
  fold_left (fun h use => after (fst use) (snd use) h) uses h.

(** The [_data] field of the register at [x], if [x] is a register. *)
Definition register_data (h : Store) (x : Ref) : option Json :=
  match nodes h !! x with
  | Some {| payload := RegisterPayload d |} => Some d
  | _ => None
  end.

(** Running [m] reassigns the [_data] of no register. *)
Definition keeps_data {A} (m : StateExn Store A) : Prop :=
  forall h x d, register_data h x = Some d -> register_data (snd (m h)) x = Some d.

(** *** Running the kernel *)

Lemma alter_as_insert {A} (f : A -> A) (m : gmap Ref A) i x :
  m !! i = Some x -> alter f i m = <[i := f x]> m.
Proof.
  intros H. apply map_eq. intros j. rewrite lookup_alter, lookup_insert.
  case_decide; subst; [rewrite H|]; reflexivity.
Qed.

Lemma node_run this h n :
  nodes h !! this = Some n -> node this h = (Ret n, h).
Proof.
  intros H. unfold node, mbind, StateExn_bind, get. simpl. rewrite H.
  reflexivity.
Qed.

Lemma bind_run {S A B} (m : StateExn S A) (k : A -> StateExn S B) s a s' :
  m s = (Ret a, s') -> (m ≫= k) s = k a s'.
Proof. intros H. unfold mbind, StateExn_bind. rewrite H. reflexivity. Qed.

Lemma bind_throw {S A B} (m : StateExn S A) (k : A -> StateExn S B) s e s' :
  m s = (Throw e, s') -> (m ≫= k) s = (Throw e, s').
Proof. intros H. unfold mbind, StateExn_bind. rewrite H. reflexivity. Qed.

Lemma getter_run {A} (field : AbstractCrdt -> A) this h n :
  nodes h !! this = Some n ->
  (n ← node this; mret (field (base n))) h = (Ret (field (base n)), h).
Proof. intros H. rewrite (bind_run _ _ _ _ _ (node_run _ _ _ H)). reflexivity. Qed.

(** C5. [_setParentLink(parent, key)] on a node that has a parent other
    than [parent] throws "Cannot attach parent if it already exist" and
    leaves the node, with its parent and key, as it was; on a node with no
    parent, or whose parent is [parent], it sets the key to [key] and the
    parent to [parent], and changes nothing else. So a call never replaces
    a parent by another one. *)
Theorem setParentLink_single_parent h this n parent key :
  nodes h !! this = Some n ->
  (forall current,
     __parent (base n) = Some current -> current <> parent ->
     _setParentLink this parent key h =
       (Throw "Cannot attach parent if it already exist", h)) /\
  (__parent (base n) = None \/ __parent (base n) = Some parent ->
   _setParentLink this parent key h =
     (Ret tt,
      set_nodes
        (insert this
           {| base := {| __parent := Some parent;
                         __doc := __doc (base n);
                         __id := __id (base n);
                         __parentKey := Some key |};
              payload := payload n |})
        h)) /\
  (forall current h',
     __parent (base n) = Some current ->
     _setParentLink this parent key h = (Ret tt, h') ->
     exists n', nodes h' !! this = Some n' /\ __parent (base n') = Some current).
Proof.
  intros Hn.
  assert (forall m : StateExn Store unit,
            m h = (Ret tt, h) ->
            (m;; update_base this (fun b =>
                   {| __parent := __parent b; __doc := __doc b; __id := __id b;
                      __parentKey := Some key |});;
                 update_base this (fun b =>
                   {| __parent := Some parent; __doc := __doc b; __id := __id b;
                      __parentKey := __parentKey b |})) h =
            (Ret tt,
             set_nodes
               (insert this
                  {| base := {| __parent := Some parent;
                                __doc := __doc (base n);
                                __id := __id (base n);
                                __parentKey := Some key |};
                     payload := payload n |})
               h)) as Hset.
  { intros m Hm. rewrite (bind_run _ _ _ _ _ Hm).
    unfold update_base, mbind, StateExn_bind, modify, set_nodes. simpl.
    f_equal. f_equal.
    rewrite (alter_as_insert _ _ _ _ Hn).
    rewrite (alter_as_insert _ _ _ _ (lookup_insert_eq _ _ _)).
    apply insert_insert_eq. }
  assert (__parent (base n) = None \/ __parent (base n) = Some parent ->
          _setParentLink this parent key h =
          (Ret tt,
           set_nodes
             (insert this
                {| base := {| __parent := Some parent;
                              __doc := __doc (base n);
                              __id := __id (base n);
                              __parentKey := Some key |};
                   payload := payload n |})
             h)) as Hok.
  { intros Hp. unfold _setParentLink.
    rewrite (bind_run _ _ _ _ _ (node_run _ _ _ Hn)).
    apply Hset.
    destruct Hp as [-> | ->]; [reflexivity|].
    rewrite bool_decide_eq_false_2 by (intros E; apply E; reflexivity).
    reflexivity. }
  split; [|split].
  - intros current Hp Hne. unfold _setParentLink.
    rewrite (bind_run _ _ _ _ _ (node_run _ _ _ Hn)). rewrite Hp.
    rewrite bool_decide_eq_true_2 by assumption. reflexivity.
  - exact Hok.
  - intros current h' Hp Hrun.
    destruct (decide (current = parent)) as [->|Hne].
    + rewrite (Hok (or_intror Hp)) in Hrun. injection Hrun as <-.
      eexists. split; [apply lookup_insert_eq|]. reflexivity.
    + unfold _setParentLink in Hrun.
      rewrite (bind_run _ _ _ _ _ (node_run _ _ _ Hn)), Hp in Hrun.
      rewrite bool_decide_eq_true_2 in Hrun by assumption. discriminate.
Qed.

Lemma apply_other_op this op isLocal h :
  op_type op <> DELETE_CRDT ->
  AbstractCrdt_apply this op isLocal h = (Ret NotModified, h).
Proof.
  intros Hop. unfold AbstractCrdt_apply.
  destruct (op_type op); try reflexivity. contradiction.
Qed.

Lemma apply_delete_unlinked this n op isLocal h :
  nodes h !! this = Some n ->
  op_type op = DELETE_CRDT ->
  __parent (base n) = None \/ __parentKey (base n) = None ->
  AbstractCrdt_apply this op isLocal h = (Ret NotModified, h).
Proof.
  intros Hn Hop Hunset. unfold AbstractCrdt_apply, _parent, _parentKey.
  rewrite Hop.
  rewrite (bind_run _ _ _ _ _ (getter_run __parent _ _ _ Hn)).
  rewrite (bind_run _ _ _ _ _ (getter_run __parentKey _ _ _ Hn)).
  destruct Hunset as [-> | ->]; [reflexivity|].
  destruct (__parent (base n)); reflexivity.
Qed.

Lemma apply_delete_linked this n op isLocal h parent key :
  nodes h !! this = Some n ->
  op_type op = DELETE_CRDT ->
  __parent (base n) = Some parent ->
  __parentKey (base n) = Some key ->
  AbstractCrdt_apply this op isLocal h = _detachChild parent this h.
Proof.
  intros Hn Hop Hp Hk. unfold AbstractCrdt_apply, _parent, _parentKey.
  rewrite Hop.
  rewrite (bind_run _ _ _ _ _ (getter_run __parent _ _ _ Hn)).
  rewrite (bind_run _ _ _ _ _ (getter_run __parentKey _ _ _ Hn)).
  rewrite Hp, Hk. reflexivity.
Qed.

(** C10. The base [_apply] returns [{ modified: false }] and changes
    nothing for every op that is not DELETE_CRDT, and for a DELETE_CRDT op
    on a node whose parent or parent key is unset; for a DELETE_CRDT op on
    a node that has both, it is the call of the parent's [_detachChild] on
    the node: same result, same effect. *)
Theorem AbstractCrdt_apply_cases h this n op isLocal :
  nodes h !! this = Some n ->
  (op_type op <> DELETE_CRDT ->
   AbstractCrdt_apply this op isLocal h = (Ret NotModified, h)) /\
  (op_type op = DELETE_CRDT ->
   __parent (base n) = None \/ __parentKey (base n) = None ->
   AbstractCrdt_apply this op isLocal h = (Ret NotModified, h)) /\
  (forall parent key,
     op_type op = DELETE_CRDT ->
     __parent (base n) = Some parent ->
     __parentKey (base n) = Some key ->
     AbstractCrdt_apply this op isLocal h = _detachChild parent this h).
Proof.
  intros Hn. split; [|split].
  - apply apply_other_op.
  - apply apply_delete_unlinked, Hn.
  - intros parent key. apply apply_delete_linked, Hn.
Qed.

Lemma data_run this h n d :
  nodes h !! this = Some n -> payload n = RegisterPayload d ->
  data this h = (Ret d, h).
Proof.
  intros Hn Hd. unfold data.
  rewrite (bind_run _ _ _ _ _ (node_run _ _ _ Hn)), Hd. reflexivity.
Qed.

(** C4, amended. [_serialize] throws, and changes nothing, when the register
    has no id, and also when the parent id or the parent key it is given is
    null or undefined, whether the register has an id or not. When the
    register has an id and both are given, it returns one op: a
    CREATE_REGISTER op with the register's id, the given parent id and key,
    and the register's value; its [opId] comes from [doc] when a doc is
    passed. No node is changed. *)
Theorem serialize_only_when_attached h this n d parentId parentKey doc :
  nodes h !! this = Some n ->
  payload n = RegisterPayload d ->
  (forall r, doc = Some r -> is_Some (docs h !! r)) ->
  (__id (base n) = None ->
   _serialize this parentId parentKey doc h =
     (Throw "Cannot serialize register if parentId or parentKey is undefined", h)) /\
  (parentId = None \/ parentKey = None ->
   _serialize this parentId parentKey doc h =
     (Throw "Cannot serialize register if parentId or parentKey is undefined", h)) /\
  (forall id pid pk,
     __id (base n) = Some id -> parentId = Some pid -> parentKey = Some pk ->
     exists generated h',
       _serialize this parentId parentKey doc h =
         (Ret [ {| op_type := CREATE_REGISTER;
                   opId := generated;
                   op_id := id;
                   op_parentId := Some pid;
                   op_parentKey := Some pk;
                   op_data := Some d |} ],
          h') /\
       nodes h' = nodes h /\
       (doc = None -> generated = None /\ h' = h) /\
       (forall r s, doc = Some r -> docs h !! r = Some s ->
          generated = Some (fst (generateOpId s)) /\
          docs h' = <[r := snd (generateOpId s)]> (docs h))).
Proof.
  intros Hn Hd Hdoc. unfold _serialize, _id. split; [|split].
  - intros Hid.
    rewrite (bind_run _ _ _ _ _ (getter_run __id _ _ _ Hn)), Hid. reflexivity.
  - intros Hnull.
    rewrite (bind_run _ _ _ _ _ (getter_run __id _ _ _ Hn)).
    destruct (__id (base n)); [|reflexivity].
    destruct Hnull as [-> | ->]; [reflexivity|].
    destruct parentId; reflexivity.
  - intros id pid pk Hid -> ->.
    rewrite (bind_run _ _ _ _ _ (getter_run __id _ _ _ Hn)), Hid.
    destruct doc as [r|].
    + destruct (Hdoc r eq_refl) as [s Hs].
      destruct (generateOpId s) as [o s'] eqn:Hgen.
      exists (Some o), (set_docs (insert r s') h).
      split; [|split; [reflexivity|split; [discriminate|]]].
      * unfold doc_call, mbind, StateExn_bind, get, modify. simpl.
        rewrite Hs, Hgen. simpl.
        rewrite (data_run this (set_docs (insert r s') h) n d Hn Hd).
        reflexivity.
      * intros r0 s0 [= <-] Hs0. rewrite Hs in Hs0. injection Hs0 as <-.
        rewrite Hgen. split; reflexivity.
    + exists None, h. split; [|split; [reflexivity|split; [auto|discriminate]]].
      unfold mbind, StateExn_bind, mret, StateExn_ret. simpl.
      rewrite (data_run _ _ _ _ Hn Hd). reflexivity.
Qed.

(** *** What the register's members leave alone *)

Lemma keeps_ret {A} (a : A) : keeps_data (mret a).
Proof. intros h x d H. exact H. Qed.

Lemma keeps_throw {A} e : keeps_data (@throw Store A e).
Proof. intros h x d H. exact H. Qed.

Lemma keeps_get : keeps_data get.
Proof. intros h x d H. exact H. Qed.

Lemma keeps_bind {A B} (m : StateExn Store A) (k : A -> StateExn Store B) :
  keeps_data m -> (forall a, keeps_data (k a)) -> keeps_data (m ≫= k).
Proof.
  intros Hm Hk h x d H. specialize (Hm h x d H).
  unfold mbind, StateExn_bind. destruct (m h) as [[a|e] h']; simpl in *.
  - apply Hk, Hm.
  - exact Hm.
Qed.

Lemma keeps_node this : keeps_data (node this).
Proof.
  unfold node. apply keeps_bind; [apply keeps_get|].
  intros h. destruct (nodes h !! this); [apply keeps_ret | apply keeps_throw].
Qed.

Lemma keeps_alter this (f : Node -> Node) :
  (forall n, match payload n with
             | RegisterPayload _ => payload (f n) = payload n
             | StructurePayload _ => True
             end) ->
  keeps_data (modify (set_nodes (alter f this))).
Proof.
  intros Hf h x d. unfold modify, register_data. simpl.
  rewrite lookup_alter. case_decide; [subst|auto].
  destruct (nodes h !! x) as [n|]; simpl; auto.
  specialize (Hf n). destruct n as [b [v|c]]; simpl in *; [|discriminate].
  destruct (f {| base := b; payload := RegisterPayload v |}) as [b' p'].
  simpl in Hf. rewrite Hf. auto.
Qed.

Lemma keeps_update_base this f : keeps_data (update_base this f).
Proof.
  apply keeps_alter. intros [b [v|c]]; simpl; auto.
Qed.

Lemma keeps_doc_call {A} doc (method : DocState -> A * DocState) :
  keeps_data (doc_call doc method).
Proof.
  unfold doc_call. apply keeps_bind; [apply keeps_get|].
  intros h. destruct (docs h !! doc) as [s|]; [|apply keeps_throw].
  destruct (method s) as [a s']. apply keeps_bind; [|intros; apply keeps_ret].
  intros h0 x d H. exact H.
Qed.

Lemma keeps_doc_read {A} doc (property : DocState -> A) :
  keeps_data (doc_read doc property).
Proof.
  unfold doc_read. apply keeps_bind; [apply keeps_get|].
  intros h. destruct (docs h !! doc); [apply keeps_ret | apply keeps_throw].
Qed.

Lemma keeps_lift {A} (o : Outcome A) : keeps_data (lift o).
Proof. intros h x d H. exact H. Qed.

(** Decompose a method body into the steps above. *)
Ltac keeps :=
  repeat first
    [ apply keeps_ret | apply keeps_throw | apply keeps_get | apply keeps_node
    | apply keeps_update_base | apply keeps_doc_call | apply keeps_doc_read
    | apply keeps_lift
    | apply keeps_bind; [|intros ?]
    | match goal with
      | |- keeps_data (match ?x with _ => _ end) => destruct x
      end ].

Lemma keeps_getParentKeyOrThrow this : keeps_data (_getParentKeyOrThrow this).
Proof. unfold _getParentKeyOrThrow. keeps. Qed.

Lemma keeps_doc this : keeps_data (_doc this).
Proof. unfold _doc. keeps. Qed.

Lemma keeps_roomId this : keeps_data (roomId this).
Proof. unfold roomId. keeps. Qed.

Lemma keeps_id this : keeps_data (_id this).
Proof. unfold _id. keeps. Qed.

Lemma keeps_parent this : keeps_data (_parent this).
Proof. unfold _parent. keeps. Qed.

Lemma keeps_parentKey this : keeps_data (_parentKey this).
Proof. unfold _parentKey. keeps. Qed.

Lemma keeps_setParentLink this parent key :
  keeps_data (_setParentLink this parent key).
Proof. unfold _setParentLink. keeps. Qed.

Lemma keeps_attach this id doc : keeps_data (_attach this id doc).
Proof. unfold _attach. keeps. Qed.

Lemma keeps_detach this : keeps_data (_detach this).
Proof. unfold _detach. keeps. Qed.

Lemma keeps_data_getter this : keeps_data (data this).
Proof. unfold data. keeps. Qed.

Lemma keeps_serialize this parentId parentKey doc :
  keeps_data (_serialize this parentId parentKey doc).
Proof.
  unfold _serialize. keeps; try apply keeps_id; apply keeps_data_getter.
Qed.

Lemma keeps_toSerializedCrdt this : keeps_data (_toSerializedCrdt this).
Proof.
  unfold _toSerializedCrdt.
  keeps; try apply keeps_id; try apply keeps_parent; try apply keeps_parentKey;
    apply keeps_data_getter.
Qed.

Lemma LiveRegister_new_run value h :
  exists this h',
    LiveRegister_new value h = (Ret this, h') /\
    register_data h' this = Some value /\
    nodes h' !! this = Some {| base := detached; payload := RegisterPayload value |}.
Proof.
  unfold LiveRegister_new, mbind, StateExn_bind, get, modify. simpl.
  eexists _, _. split; [reflexivity|]. unfold register_data. simpl.
  rewrite lookup_insert_eq. split; reflexivity.
Qed.

(** [_deserialize] returns a new register that holds the serialized value. *)
Lemma deserialize_data id item doc h s :
  docs h !! doc = Some s ->
  exists h',
    _deserialize id item doc h = (Ret (next_ref h), h') /\
    register_data h' (next_ref h) = Some (ser_data item).
Proof.
  intros Hs.
  destruct (LiveRegister_new_run (ser_data item) h) as (this & h1 & Hnew & Hd & Hn).
  assert (this = next_ref h /\ docs h1 = docs h) as [-> Hdocs].
  { unfold LiveRegister_new, mbind, StateExn_bind, get, modify in Hnew.
    simpl in Hnew. injection Hnew as <- <-. split; reflexivity. }
  pose proof (keeps_attach (next_ref h) id doc h1 _ _ Hd) as Hkept.
  unfold _deserialize. rewrite (bind_run _ _ _ _ _ Hnew).
  assert (fst (_attach (next_ref h) id doc h1) = Ret tt) as Hret.
  { unfold _attach. rewrite (bind_run _ _ _ _ _ (node_run _ _ _ Hn)).
    unfold doc_call, update_base, mbind, StateExn_bind, get, modify. simpl.
    rewrite Hdocs, Hs. reflexivity. }
  destruct (_attach (next_ref h) id doc h1) as [o h2] eqn:Hattach.
  simpl in Hret, Hkept. subst o. exists h2. split; [|exact Hkept].
  unfold mbind, StateExn_bind. rewrite Hattach. reflexivity.
Qed.

(** [_detach] clears the parent and the doc of a node and removes it from
    the doc's index; it leaves [__id] and [__parentKey] as they are. *)
Lemma detach_keeps_id h this n doc id s :
  nodes h !! this = Some n ->
  __doc (base n) = Some doc -> __id (base n) = Some id -> id <> "" ->
  docs h !! doc = Some s ->
  _detach this h =
  (Ret tt,
   {| nodes :=
        <[this := {| base := {| __parent := None; __doc := None;
                                __id := Some id;
                                __parentKey := __parentKey (base n) |};
                     payload := payload n |}]> (nodes h);
      docs := <[doc := deleteItem id s]> (docs h);
      next_ref := next_ref h |}).
Proof.
  intros Hn Hdoc Hid Hne Hs. unfold _detach.
  rewrite (bind_run _ _ _ _ _ (node_run _ _ _ Hn)), Hdoc, Hid.
  unfold truthy_string. destruct (String.eqb_spec id ""); [contradiction|].
  unfold doc_call, update_base, mbind, StateExn_bind, get, modify, set_nodes,
    set_docs; simpl.
  rewrite Hs. simpl. f_equal. f_equal.
  rewrite (alter_as_insert _ _ _ _ Hn).
  rewrite (alter_as_insert _ _ _ _ (lookup_insert_eq _ _ _)). simpl.
  rewrite Hid. apply insert_insert_eq.
Qed.

(** *** Attaching, detaching and linking, step by step *)

(** The node [n] once [_detach] has run on it: no parent, no doc; the id and
    the parent key stay. *)
Definition unlinked (n : Node) : Node :=
  {| base := {| __parent := None; __doc := None;
                __id := __id (base n); __parentKey := __parentKey (base n) |};
     payload := payload n |}.

(** The node [n] once [_attach(id, doc)] has run on it. *)
Definition attached (id : string) (doc : Ref) (n : Node) : Node :=
  {| base := {| __parent := __parent (base n); __doc := Some doc;
                __id := Some id; __parentKey := __parentKey (base n) |};
     payload := payload n |}.

(** The node [n] once [_setParentLink(parent, key)] has run on it. *)
Definition linked (parent : Ref) (key : string) (n : Node) : Node :=
  {| base := {| __parent := Some parent; __doc := __doc (base n);
                __id := __id (base n); __parentKey := Some key |};
     payload := payload n |}.

(** Running [m] leaves every node other than [this] as it is. *)
Definition only_touches {A} (this : Ref) (m : StateExn Store A) : Prop :=
  forall h x, x <> this -> nodes (snd (m h)) !! x = nodes h !! x.

Lemma node_missing this h :
  nodes h !! this = None -> node this h = (Throw type_error, h).
Proof.
  intros H. unfold node, mbind, StateExn_bind, get. simpl. rewrite H.
  reflexivity.
Qed.

Lemma doc_call_run {A} doc (method : DocState -> A * DocState) h s :
  docs h !! doc = Some s ->
  doc_call doc method h =
  (Ret (fst (method s)), set_docs (insert doc (snd (method s))) h).
Proof.
  intros H. unfold doc_call, mbind, StateExn_bind, get, modify. simpl.
  rewrite H. destruct (method s). reflexivity.
Qed.

Lemma doc_call_missing {A} doc (method : DocState -> A * DocState) h :
  docs h !! doc = None -> doc_call doc method h = (Throw type_error, h).
Proof.
  intros H. unfold doc_call, mbind, StateExn_bind, get. simpl.
  rewrite H. reflexivity.
Qed.

Lemma attach_eq this id doc h :
  _attach this id doc h =
  match nodes h !! this with
  | None => (Throw type_error, h)
  | Some n =>
      if truthy_string (__id (base n)) || bool_decide (is_Some (__doc (base n)))
      then (Throw "Cannot attach if CRDT is already attached", h)
      else
        match docs h !! doc with
        | None => (Throw type_error, h)
        | Some s =>
            (Ret tt,
             {| nodes := <[this := attached id doc n]> (nodes h);
                docs := <[doc := addItem id this s]> (docs h);
                next_ref := next_ref h |})
        end
  end.
Proof.
  unfold _attach. destruct (nodes h !! this) as [n|] eqn:Hn.
  2:{ apply bind_throw, node_missing, Hn. }
  rewrite (bind_run _ _ _ _ _ (node_run _ _ _ Hn)).
  destruct (truthy_string (__id (base n)) || bool_decide (is_Some (__doc (base n))));
    [reflexivity|].
  unfold doc_call, update_base, mbind, StateExn_bind, get, modify, set_nodes,
    set_docs; simpl.
  destruct (docs h !! doc) as [s|]; [|reflexivity]. simpl.
  f_equal. f_equal.
  rewrite (alter_as_insert _ _ _ _ Hn).
  rewrite (alter_as_insert _ _ _ _ (lookup_insert_eq _ _ _)). simpl.
  apply insert_insert_eq.
Qed.

Lemma detach_eq this h :
  _detach this h =
  match nodes h !! this with
  | None => (Throw type_error, h)
  | Some n =>
      match __doc (base n), __id (base n) with
      | Some doc, Some id =>
          if negb (String.eqb id "")
          then match docs h !! doc with
               | Some s =>
                   (Ret tt,
                    {| nodes := <[this := unlinked n]> (nodes h);
                       docs := <[doc := deleteItem id s]> (docs h);
                       next_ref := next_ref h |})
               | None => (Throw type_error, h)
               end
          else (Ret tt, set_nodes (insert this (unlinked n)) h)
      | _, _ => (Ret tt, set_nodes (insert this (unlinked n)) h)
      end
  end.
Proof.
  unfold _detach. destruct (nodes h !! this) as [n|] eqn:Hn.
  2:{ apply bind_throw, node_missing, Hn. }
  rewrite (bind_run _ _ _ _ _ (node_run _ _ _ Hn)).
  assert (forall h0 : Store,
            nodes h0 = nodes h ->
            (update_base this (fun b =>
               {| __parent := None; __doc := __doc b; __id := __id b;
                  __parentKey := __parentKey b |});;
             update_base this (fun b =>
               {| __parent := __parent b; __doc := None; __id := __id b;
                  __parentKey := __parentKey b |})) h0 =
            (Ret tt, set_nodes (insert this (unlinked n)) h0)) as Hclear.
  { intros h0 E. unfold update_base, mbind, StateExn_bind, modify, set_nodes.
    simpl. f_equal. f_equal. rewrite E.
    rewrite (alter_as_insert _ _ _ _ Hn).
    rewrite (alter_as_insert _ _ _ _ (lookup_insert_eq _ _ _)). simpl.
    apply insert_insert_eq. }
  destruct (__doc (base n)) as [doc|]; [|apply (Hclear h eq_refl)].
  destruct (__id (base n)) as [id|]; [|apply (Hclear h eq_refl)].
  unfold truthy_string. destruct (negb (String.eqb id ""));
    [|apply (Hclear h eq_refl)].
  destruct (docs h !! doc) as [s|] eqn:Hs.
  - rewrite (bind_run _ _ _ _ _ (doc_call_run _ _ _ _ Hs)).
    exact (Hclear (set_docs (insert doc (deleteItem id s)) h) eq_refl).
  - apply bind_throw, doc_call_missing, Hs.
Qed.

Lemma setParentLink_eq this parent key h :
  _setParentLink this parent key h =
  match nodes h !! this with
  | None => (Throw type_error, h)
  | Some n =>
      match __parent (base n) with
      | Some current =>
          if bool_decide (current ≠ parent)
          then (Throw "Cannot attach parent if it already exist", h)
          else (Ret tt, set_nodes (insert this (linked parent key n)) h)
      | None => (Ret tt, set_nodes (insert this (linked parent key n)) h)
      end
  end.
Proof.
  unfold _setParentLink. destruct (nodes h !! this) as [n|] eqn:Hn.
  2:{ apply bind_throw, node_missing, Hn. }
  rewrite (bind_run _ _ _ _ _ (node_run _ _ _ Hn)).
  assert ((update_base this (fun b =>
             {| __parent := __parent b; __doc := __doc b; __id := __id b;
                __parentKey := Some key |});;
           update_base this (fun b =>
             {| __parent := Some parent; __doc := __doc b; __id := __id b;
                __parentKey := __parentKey b |})) h =
          (Ret tt, set_nodes (insert this (linked parent key n)) h)) as Hset.
  { unfold update_base, mbind, StateExn_bind, modify, set_nodes.
    simpl. f_equal. f_equal.
    rewrite (alter_as_insert _ _ _ _ Hn).
    rewrite (alter_as_insert _ _ _ _ (lookup_insert_eq _ _ _)). simpl.
    apply insert_insert_eq. }
  destruct (__parent (base n)) as [current|]; [|exact Hset].
  destruct (bool_decide (current ≠ parent)); [reflexivity | exact Hset].
Qed.

(** The node [this] has an id that is not empty. *)
Definition identified (this : Ref) (h : Store) : Prop :=
  exists n, nodes h !! this = Some n /\ truthy_string (__id (base n)) = true.

(** Running [m] leaves a node that has a non-empty id with one. *)
Definition keeps_identified {A} (this : Ref) (m : StateExn Store A) : Prop :=
  forall h, identified this h -> identified this (snd (m h)).

Lemma identified_ret {A} this (a : A) : keeps_identified this (mret a).
Proof. intros h H. exact H. Qed.

Lemma identified_throw {A} this e : keeps_identified this (@throw Store A e).
Proof. intros h H. exact H. Qed.

Lemma identified_lift {A} this (o : Outcome A) : keeps_identified this (lift o).
Proof. intros h H. exact H. Qed.

Lemma identified_bind {A B} this (m : StateExn Store A) (k : A -> StateExn Store B) :
  keeps_identified this m -> (forall a, keeps_identified this (k a)) ->
  keeps_identified this (m ≫= k).
Proof.
  intros Hm Hk h H. specialize (Hm h H).
  unfold mbind, StateExn_bind. destruct (m h) as [[a|e] h']; simpl in *.
  - apply Hk, Hm.
  - exact Hm.
Qed.

Lemma identified_node this other : keeps_identified this (node other).
Proof.
  intros h H. unfold node, mbind, StateExn_bind, get. simpl.
  destruct (nodes h !! other); exact H.
Qed.

Lemma identified_update_base this x f :
  (forall b, __id (f b) = __id b) ->
  keeps_identified this (update_base x f).
Proof.
  intros Hf h (n & Hn & Hid). unfold identified, update_base, modify. simpl.
  rewrite lookup_alter. case_decide; [subst|eauto].
  rewrite Hn. simpl. eexists. split; [reflexivity|]. simpl.
  rewrite Hf. exact Hid.
Qed.

Lemma identified_doc_call {A} this doc (method : DocState -> A * DocState) :
  keeps_identified this (doc_call doc method).
Proof.
  intros h H. unfold doc_call, mbind, StateExn_bind, get, modify. simpl.
  destruct (docs h !! doc) as [s|]; [|exact H].
  destruct (method s). exact H.
Qed.

Lemma identified_doc_read {A} this doc (property : DocState -> A) :
  keeps_identified this (doc_read doc property).
Proof.
  intros h H. unfold doc_read, mbind, StateExn_bind, get. simpl.
  destruct (docs h !! doc); exact H.
Qed.

(** Decompose a method body into the steps above. *)
Ltac identifies :=
  repeat first
    [ apply identified_ret | apply identified_throw | apply identified_lift
    | apply identified_node | apply identified_doc_call
    | apply identified_doc_read
    | apply identified_update_base; intros ?; reflexivity
    | apply identified_bind; [|intros ?]
    | match goal with
      | |- keeps_identified _ (match ?x with _ => _ end) => destruct x
      end ].

(** [_attach] on any node leaves alone a node that has a non-empty id: on that
    node it throws, and on another one it writes to that other one. *)
Lemma identified_attach this x id doc : keeps_identified this (_attach x id doc).
Proof.
  intros h (n & Hn & Hid). rewrite attach_eq.
  destruct (nodes h !! x) as [nx|] eqn:Hx; [|exists n; auto].
  destruct (truthy_string (__id (base nx)) || bool_decide (is_Some (__doc (base nx))))
    eqn:Hguard; [exists n; auto|].
  destruct (docs h !! doc); [|exists n; auto].
  exists n. split; [|exact Hid]. simpl. rewrite lookup_insert_ne; [exact Hn|].
  intros ->. rewrite Hn in Hx. injection Hx as <-.
  rewrite Hid in Hguard. discriminate.
Qed.

Lemma after_keeps_identified m x this h :
  (forall op isLocal, m <> Call_apply op isLocal) ->
  identified this h -> identified this (after m x h).
Proof.
  intros Hm.
  assert (forall A (body : StateExn Store A),
            keeps_identified this body ->
            identified this h -> identified this (snd (body h)))
    as Huse by (intros A body Hb; apply Hb).
  destruct m; simpl; try (intros H; exact H); apply Huse.
  - unfold data. identifies.
  - unfold _serialize, _id, data. identifies.
  - unfold _toSerializedCrdt, _parent, _parentKey, _id, data. identifies.
  - exfalso. apply (Hm op isLocal). reflexivity.
  - unfold _getParentKeyOrThrow. identifies.
  - unfold _doc. identifies.
  - unfold roomId. identifies.
  - unfold _id. identifies.
  - unfold _parent. identifies.
  - unfold _parentKey. identifies.
  - unfold _setParentLink. identifies.
  - apply identified_attach.
  - unfold _detach. identifies.
Qed.

(** Right after an [_attach] that returned, a further [_attach] throws and
    changes nothing. When the id that was given is not empty this stays so
    whatever members are used in between, on this node or on others, apart
    from [_apply]: [_detach] does not make the node attachable again. *)
Theorem attach_twice_throws h this id doc h' :
  _attach this id doc h = (Ret tt, h') ->
  (forall id' doc',
     _attach this id' doc' h' =
       (Throw "Cannot attach if CRDT is already attached", h')) /\
  (id <> "" ->
   forall uses id' doc',
     (forall m x, In (m, x) uses -> forall op isLocal, m <> Call_apply op isLocal) ->
     _attach this id' doc' (after_all uses h') =
       (Throw "Cannot attach if CRDT is already attached", after_all uses h')).
Proof.
  rewrite attach_eq. destruct (nodes h !! this) as [n|]; [|discriminate].
  destruct (truthy_string (__id (base n)) || bool_decide (is_Some (__doc (base n))));
    [discriminate|].
  destruct (docs h !! doc) as [s|]; [|discriminate].
  intros [= <-]. split.
  - intros id' doc'. rewrite attach_eq. cbn [nodes]. rewrite lookup_insert_eq.
    unfold attached. cbn [base __doc __id].
    rewrite (bool_decide_eq_true_2 (is_Some (Some doc))) by eauto.
    rewrite orb_true_r. reflexivity.
  - intros Hid uses id' doc' Huses.
    set (h' := {| nodes := _; docs := _; next_ref := _ |}).
    assert (identified this h') as Hh'.
    { exists (attached id doc n). split; [apply lookup_insert_eq|]. simpl.
      destruct (String.eqb_spec id ""); [contradiction|reflexivity]. }
    assert (identified this (after_all uses h')) as (n' & Hn' & Hid').
    { clearbody h'. revert h' Hh'. unfold after_all.
      induction uses as [|[m x] uses IH]; intros h' Hh'; simpl; [exact Hh'|].
      apply IH.
      - intros m0 x0 Hin. apply (Huses m0 x0). right. exact Hin.
      - apply after_keeps_identified; [|exact Hh'].
        apply (Huses m x). left. reflexivity. }
    rewrite attach_eq, Hn', Hid'. reflexivity.
Qed.

Lemma unlinked_unlinked n : unlinked (unlinked n) = unlinked n.
Proof. reflexivity. Qed.

(** [_detach] twice is [_detach] once: the second call finds no doc to
    remove the node from and clears what is already cleared. *)
Theorem detach_is_idempotent this h :
  _detach this (snd (_detach this h)) = _detach this h.
Proof.
  assert (forall h1 n,
            nodes h1 !! this = Some (unlinked n) ->
            (exists m, nodes h1 = <[this := unlinked n]> m) ->
            _detach this h1 = (Ret tt, h1)) as Hagain.
  { intros h1 n H1 [m Hm]. rewrite detach_eq, H1. simpl.
    unfold set_nodes. destruct h1 as [ns ds nx]. simpl in *. f_equal. f_equal.
    rewrite Hm. apply insert_insert_eq. }
  rewrite (detach_eq this h). destruct (nodes h !! this) as [n|] eqn:Hn.
  2:{ simpl. rewrite detach_eq, Hn. reflexivity. }
  assert (_detach this (set_nodes (insert this (unlinked n)) h) =
          (Ret tt, set_nodes (insert this (unlinked n)) h)) as Hplain.
  { apply (Hagain _ n); simpl; [apply lookup_insert_eq | eauto]. }
  destruct (__doc (base n)) as [doc|] eqn:Hd; [|exact Hplain].
  destruct (__id (base n)) as [id|] eqn:Hi; [|exact Hplain].
  destruct (negb (String.eqb id "")) eqn:E; [|exact Hplain].
  destruct (docs h !! doc) as [s|] eqn:Hs.
  - apply (Hagain _ n); simpl; [apply lookup_insert_eq | eauto].
  - simpl. rewrite detach_eq, Hn, Hd, Hi, E, Hs. reflexivity.
Qed.

Lemma detach_result this h n h' :
  nodes h !! this = Some n ->
  _detach this h = (Ret tt, h') ->
  nodes h' !! this = Some (unlinked n).
Proof.
  intros Hn. rewrite detach_eq, Hn.
  destruct (__doc (base n)) as [doc|], (__id (base n)) as [id|];
    try (intros [= <-]; apply lookup_insert_eq).
  destruct (negb (String.eqb id ""));
    [|intros [= <-]; apply lookup_insert_eq].
  destruct (docs h !! doc); [|discriminate].
  intros [= <-]. apply lookup_insert_eq.
Qed.

Lemma roomId_without_doc this h n :
  nodes h !! this = Some n -> __doc (base n) = None ->
  roomId this h = (Ret None, h).
Proof.
  intros Hn Hd. unfold roomId.
  rewrite (bind_run _ _ _ _ _ (node_run _ _ _ Hn)), Hd. reflexivity.
Qed.

(** A node that [_detach] has unlinked has no parent, no doc and no room id,
    and keeps its id and its parent key. A DELETE_CRDT op on it does
    nothing, like every other op, and if its id is not empty it cannot be
    attached again: [_attach] throws. *)
Theorem detached_node_stays_identified h this n h' :
  nodes h !! this = Some n ->
  _detach this h = (Ret tt, h') ->
  _parent this h' = (Ret None, h') /\
  _doc this h' = (Ret None, h') /\
  roomId this h' = (Ret None, h') /\
  _id this h' = (Ret (__id (base n)), h') /\
  _parentKey this h' = (Ret (__parentKey (base n)), h') /\
  (forall op isLocal,
     AbstractCrdt_apply this op isLocal h' = (Ret NotModified, h')) /\
  (truthy_string (__id (base n)) = true ->
   forall id doc,
     _attach this id doc h' =
       (Throw "Cannot attach if CRDT is already attached", h')).
Proof.
  intros Hn Hrun. pose proof (detach_result _ _ _ _ Hn Hrun) as Hu.
  split; [exact (getter_run __parent _ _ _ Hu)|].
  split; [exact (getter_run __doc _ _ _ Hu)|].
  split; [apply (roomId_without_doc _ _ _ Hu); reflexivity|].
  split; [exact (getter_run __id _ _ _ Hu)|].
  split; [exact (getter_run __parentKey _ _ _ Hu)|].
  split.
  - intros op isLocal.
    destruct (decide (op_type op = DELETE_CRDT)) as [Hop|Hop].
    + apply (apply_delete_unlinked _ _ _ _ _ Hu Hop). left. reflexivity.
    + apply apply_other_op, Hop.
  - intros Hid id doc. rewrite attach_eq, Hu. simpl. rewrite Hid. reflexivity.
Qed.

(** A register is no parent: its [_attachChild] and [_detachChild] throw
    "Method not implemented." and change nothing, and so does a DELETE_CRDT
    op applied to a node whose parent link points to a register. *)
Theorem register_parent_is_not_implemented h :
  (forall this op,
     LiveRegister_attachChild this op h = (Throw "Method not implemented.", h)) /\
  (forall this crdt,
     LiveRegister_detachChild this crdt h = (Throw "Method not implemented.", h)) /\
  (forall this n parent key p d op isLocal,
     nodes h !! this = Some n ->
     __parent (base n) = Some parent -> __parentKey (base n) = Some key ->
     nodes h !! parent = Some p -> payload p = RegisterPayload d ->
     op_type op = DELETE_CRDT ->
     AbstractCrdt_apply this op isLocal h = (Throw "Method not implemented.", h)).
Proof.
  split; [reflexivity|]. split; [reflexivity|].
  intros this n parent key p d op isLocal Hn Hp Hk Hpn Hd Hop.
  rewrite (apply_delete_linked _ _ _ _ _ _ _ Hn Hop Hp Hk).
  unfold _detachChild. rewrite (bind_run _ _ _ _ _ (node_run _ _ _ Hpn)), Hd.
  reflexivity.
Qed.

Lemma lift_bind {S A B} (o : Outcome A) (k : A -> StateExn S B) s :
  (lift o ≫= k) s = match o with Ret a => k a s | Throw e => (Throw e, s) end.
Proof. unfold lift, mbind, StateExn_bind. destruct o; reflexivity. Qed.

(** Whatever [nn] does, [_toSerializedCrdt] changes nothing, and an item it
    returns carries the value of the register. *)
Lemma toSerializedCrdt_returns this h item h1 :
  _toSerializedCrdt this h = (Ret item, h1) ->
  h1 = h /\ register_data h this = Some (ser_data item).
Proof.
  unfold _toSerializedCrdt, _parent, _parentKey, _id, register_data.
  destruct (nodes h !! this) as [n|] eqn:Hn.
  2:{ rewrite (bind_throw _ _ _ _ _ (bind_throw _ _ _ _ _ (node_missing _ _ Hn))).
      discriminate. }
  rewrite (bind_run _ _ _ _ _ (getter_run __parent _ _ _ Hn)).
  assert (forall parentId : option string,
            (parentId ← lift (nn string parentId
                                "Cannot serialize Register if parentId is missing");
             parentKey ← (n0 ← node this; mret (__parentKey (base n0)));
             parentKey ← lift (nn string parentKey
                                 "Cannot serialize Register if parentKey is missing");
             d ← data this;
             mret {| ser_parentId := parentId; ser_parentKey := parentKey;
                     ser_data := d |}) h = (Ret item, h1) ->
            h1 = h /\
            match n with
            | {| payload := RegisterPayload d |} => Some d
            | _ => None
            end = Some (ser_data item)) as Hrest.
  { intros parentId. rewrite lift_bind.
    destruct (nn string parentId _); [|discriminate].
    rewrite (bind_run _ _ _ _ _ (getter_run __parentKey _ _ _ Hn)).
    rewrite lift_bind.
    destruct (nn string (__parentKey (base n)) _); [|discriminate].
    destruct n as [b [d|c]].
    - rewrite (bind_run _ _ _ _ _ (data_run _ _ _ _ Hn eq_refl)).
      intros [= <- <-]. split; reflexivity.
    - unfold data.
      rewrite (bind_throw _ _ h type_error h); [discriminate|].
      rewrite (bind_run _ _ _ _ _ (node_run _ _ _ Hn)). reflexivity. }
  destruct (__parent (base n)) as [p|].
  - destruct (nodes h !! p) as [pn|] eqn:Hp.
    + rewrite (bind_run _ _ _ _ _ (getter_run __id _ _ _ Hp)). apply Hrest.
    + rewrite (bind_throw _ _ _ _ _ (bind_throw _ _ _ _ _ (node_missing _ _ Hp))).
      discriminate.
  - apply Hrest.
Qed.

Lemma deserialize_eq id item doc h s :
  docs h !! doc = Some s ->
  _deserialize id item doc h =
  (Ret (next_ref h),
   {| nodes :=
        <[next_ref h :=
            attached id doc
              {| base := detached; payload := RegisterPayload (ser_data item) |}]>
          (nodes h);
      docs := <[doc := addItem id (next_ref h) s]> (docs h);
      next_ref := Pos.succ (next_ref h) |}).
Proof.
  intros Hs. unfold _deserialize.
  assert (LiveRegister_new (ser_data item) h =
          (Ret (next_ref h),
           {| nodes := <[next_ref h := {| base := detached;
                                          payload := RegisterPayload (ser_data item) |}]>
                         (nodes h);
              docs := docs h;
              next_ref := Pos.succ (next_ref h) |})) as Hnew by reflexivity.
  rewrite (bind_run _ _ _ _ _ Hnew).
  unfold mbind at 1. unfold StateExn_bind at 1.
  rewrite attach_eq. cbn [nodes docs next_ref].
  rewrite lookup_insert_eq, Hs. simpl.
  rewrite insert_insert_eq. reflexivity.
Qed.

(** Round trip of a register through its serialized form: what
    [_toSerializedCrdt] returns, [_deserialize] turns into a new register,
    attached to [doc] under the given id, that holds the same value. *)
Theorem serialized_register_round_trip h this item h1 id doc s :
  _toSerializedCrdt this h = (Ret item, h1) ->
  docs h !! doc = Some s ->
  h1 = h /\
  register_data h this = Some (ser_data item) /\
  exists h',
    _deserialize id item doc h = (Ret (next_ref h), h') /\
    register_data h' (next_ref h) = Some (ser_data item) /\
    _id (next_ref h) h' = (Ret (Some id), h') /\
    _doc (next_ref h) h' = (Ret (Some doc), h').
Proof.
  intros Hser Hs. destruct (toSerializedCrdt_returns _ _ _ _ Hser) as [-> Hd].
  split; [reflexivity|]. split; [exact Hd|].
  eexists. split; [apply (deserialize_eq _ _ _ _ _ Hs)|].
  set (h' := {| nodes := _; docs := _; next_ref := _ |}).
  assert (nodes h' !! next_ref h =
          Some (attached id doc
                  {| base := detached;
                     payload := RegisterPayload (ser_data item) |})) as Hn
    by apply lookup_insert_eq.
  unfold register_data at 1. rewrite Hn. split; [reflexivity|].
  split; [exact (getter_run __id _ _ _ Hn) | exact (getter_run __doc _ _ _ Hn)].
Qed.

(** What [_deserialize] builds from an id and a serialized register,
    [_serialize] gives back: one CREATE_REGISTER op with that id and that
    value, under the parent id and key it is asked for. *)
Theorem deserialize_then_serialize h id item doc s parentId parentKey :
  docs h !! doc = Some s ->
  exists h',
    _deserialize id item doc h = (Ret (next_ref h), h') /\
    docs h' = <[doc := addItem id (next_ref h) s]> (docs h) /\
    _serialize (next_ref h) (Some parentId) (Some parentKey) None h' =
      (Ret [ {| op_type := CREATE_REGISTER; opId := None; op_id := id;
                op_parentId := Some parentId; op_parentKey := Some parentKey;
                op_data := Some (ser_data item) |} ], h').
Proof.
  intros Hs. eexists. split; [apply (deserialize_eq _ _ _ _ _ Hs)|].
  split; [reflexivity|].
  set (h' := {| nodes := _; docs := _; next_ref := _ |}).
  assert (nodes h' !! next_ref h =
          Some (attached id doc
                  {| base := detached;
                     payload := RegisterPayload (ser_data item) |})) as Hn
    by apply lookup_insert_eq.
  unfold _serialize, _id.
  rewrite (bind_run _ _ _ _ _ (getter_run __id _ _ _ Hn)). simpl.
  unfold mbind at 1. unfold StateExn_bind at 1. simpl.
  rewrite (bind_run _ _ _ _ _ (data_run _ _ _ _ Hn eq_refl)). reflexivity.
Qed.

(** After a [_setParentLink(parent, key)] that returned, the node's parent
    is [parent] and its key is [key]; no doc was touched; the same call
    again changes nothing, and a call with another parent throws. *)
Theorem setParentLink_then_read h this parent key h' :
  _setParentLink this parent key h = (Ret tt, h') ->
  _parent this h' = (Ret (Some parent), h') /\
  _parentKey this h' = (Ret (Some key), h') /\
  _getParentKeyOrThrow this h' = (Ret key, h') /\
  docs h' = docs h /\
  _setParentLink this parent key h' = (Ret tt, h') /\
  (forall other key',
     other <> parent ->
     _setParentLink this other key' h' =
       (Throw "Cannot attach parent if it already exist", h')).
Proof.
  rewrite setParentLink_eq. destruct (nodes h !! this) as [n|]; [|discriminate].
  assert (forall h0, h0 = set_nodes (insert this (linked parent key n)) h ->
            _parent this h0 = (Ret (Some parent), h0) /\
            _parentKey this h0 = (Ret (Some key), h0) /\
            _getParentKeyOrThrow this h0 = (Ret key, h0) /\
            docs h0 = docs h /\
            _setParentLink this parent key h0 = (Ret tt, h0) /\
            (forall other key',
               other <> parent ->
               _setParentLink this other key' h0 =
                 (Throw "Cannot attach parent if it already exist", h0))) as Hall.
  { intros h0 ->.
    assert (nodes (set_nodes (insert this (linked parent key n)) h) !! this =
            Some (linked parent key n)) as Hl by apply lookup_insert_eq.
    split; [exact (getter_run __parent _ _ _ Hl)|].
    split; [exact (getter_run __parentKey _ _ _ Hl)|].
    split.
    { unfold _getParentKeyOrThrow.
      rewrite (bind_run _ _ _ _ _ (node_run _ _ _ Hl)). reflexivity. }
    split; [reflexivity|]. split.
    - rewrite setParentLink_eq, Hl. simpl.
      rewrite bool_decide_eq_false_2 by (intros E; apply E; reflexivity).
      unfold set_nodes. simpl. rewrite insert_insert_eq. reflexivity.
    - intros other key' Hne. rewrite setParentLink_eq, Hl. simpl.
      rewrite bool_decide_eq_true_2 by congruence. reflexivity. }
  destruct (__parent (base n)) as [current|].
  - destruct (bool_decide (current ≠ parent)); [discriminate|].
    intros [= <-]. apply Hall. reflexivity.
  - intros [= <-]. apply Hall. reflexivity.
Qed.

Lemma touches_ret {A} this (a : A) : only_touches this (mret a).
Proof. intros h x _. reflexivity. Qed.

Lemma touches_throw {A} this e : only_touches this (@throw Store A e).
Proof. intros h x _. reflexivity. Qed.

Lemma touches_bind {A B} this (m : StateExn Store A) (k : A -> StateExn Store B) :
  only_touches this m -> (forall a, only_touches this (k a)) ->
  only_touches this (m ≫= k).
Proof.
  intros Hm Hk h x Hx. specialize (Hm h x Hx).
  unfold mbind, StateExn_bind. destruct (m h) as [[a|e] h']; simpl in *.
  - rewrite (Hk a h' x Hx). exact Hm.
  - exact Hm.
Qed.

Lemma touches_node this other : only_touches this (node other).
Proof.
  intros h x _. unfold node, mbind, StateExn_bind, get. simpl.
  destruct (nodes h !! other); reflexivity.
Qed.

Lemma touches_update_base this f : only_touches this (update_base this f).
Proof.
  intros h x Hx. unfold update_base, modify. simpl.
  apply lookup_alter_ne. congruence.
Qed.

Lemma touches_doc_call {A} this doc (method : DocState -> A * DocState) :
  only_touches this (doc_call doc method).
Proof.
  intros h x _. unfold doc_call, mbind, StateExn_bind, get, modify. simpl.
  destruct (docs h !! doc) as [s|]; [|reflexivity].
  destruct (method s). reflexivity.
Qed.

Lemma touches_doc_read {A} this doc (property : DocState -> A) :
  only_touches this (doc_read doc property).
Proof.
  intros h x _. unfold doc_read, mbind, StateExn_bind, get. simpl.
  destruct (docs h !! doc); reflexivity.
Qed.

Lemma touches_lift {A} this (o : Outcome A) : only_touches this (lift o).
Proof. intros h x _. reflexivity. Qed.

(** Decompose a method body into the steps above. *)
Ltac touches :=
  repeat first
    [ apply touches_ret | apply touches_throw | apply touches_node
    | apply touches_update_base | apply touches_doc_call
    | apply touches_doc_read | apply touches_lift
    | apply touches_bind; [|intros ?]
    | match goal with
      | |- only_touches _ (match ?x with _ => _ end) => destruct x
      end ].

(** Apart from [_apply], which hands a DELETE_CRDT op to the parent, no
    member of a register writes to another node: using it on [this] leaves
    every other node of the store as it is. *)
Theorem members_touch_only_this m this h x :
  x <> this ->
  (forall op isLocal, m <> Call_apply op isLocal) ->
  nodes (after m this h) !! x = nodes h !! x.
Proof.
  intros Hx Hm.
  assert (forall A (body : StateExn Store A),
            only_touches this body -> nodes (snd (body h)) !! x = nodes h !! x)
    as Huse by (intros A body Hb; apply Hb, Hx).
  destruct m; simpl; try reflexivity; apply Huse.
  - unfold data. touches.
  - unfold _serialize, _id, data. touches.
  - unfold _toSerializedCrdt, _parent, _parentKey, _id, data. touches.
  - exfalso. apply (Hm op isLocal). reflexivity.
  - unfold _getParentKeyOrThrow. touches.
  - unfold _doc. touches.
  - unfold roomId. touches.
  - unfold _id. touches.
  - unfold _parent. touches.
  - unfold _parentKey. touches.
  - unfold _setParentLink. touches.
  - unfold _attach. touches.
  - unfold _detach. touches.
Qed.

(** A register that was constructed and not yet attached or linked holds its
    value and nothing else: it has no room id, asking for its parent key or
    for its creation op throws, and every op leaves it alone. *)
Theorem new_register_is_inert value h this h' :
  LiveRegister_new value h = (Ret this, h') ->
  data this h' = (Ret value, h') /\
  roomId this h' = (Ret None, h') /\
  _getParentKeyOrThrow this h' = (Throw "Parent key is missing", h') /\
  (forall parentId parentKey doc,
     _serialize this parentId parentKey doc h' =
       (Throw "Cannot serialize register if parentId or parentKey is undefined",
        h')) /\
  (forall op isLocal,
     AbstractCrdt_apply this op isLocal h' = (Ret NotModified, h')).
Proof.
  intros Hnew.
  destruct (LiveRegister_new_run value h) as (this0 & h0 & Hrun & _ & Hn).
  rewrite Hrun in Hnew. injection Hnew as -> ->.
  split; [apply (data_run _ _ _ _ Hn); reflexivity|].
  split; [apply (roomId_without_doc _ _ _ Hn); reflexivity|].
  split.
  { unfold _getParentKeyOrThrow.
    rewrite (bind_run _ _ _ _ _ (node_run _ _ _ Hn)). reflexivity. }
  split.
  { intros parentId parentKey doc. unfold _serialize, _id.
    rewrite (bind_run _ _ _ _ _ (getter_run __id _ _ _ Hn)). reflexivity. }
  intros op isLocal.
  destruct (decide (op_type op = DELETE_CRDT)) as [Hop|Hop].
  - apply (apply_delete_unlinked _ _ _ _ _ Hn Hop). left. reflexivity.
  - apply apply_other_op, Hop.
Qed.

Section Immutability.

(** The live structures are not among the sources. What is asked of their
    [_detachChild] is that it does not assign to the [_data] of a register. *)
Hypothesis structure_keeps_data :
  forall parent crdt, keeps_data (structure_detachChild parent crdt).

Lemma keeps_detachChild parent crdt : keeps_data (_detachChild parent crdt).
Proof.
  unfold _detachChild, LiveRegister_detachChild. keeps.
  apply structure_keeps_data.
Qed.

Lemma keeps_apply this op isLocal : keeps_data (LiveRegister_apply this op isLocal).
Proof.
  unfold LiveRegister_apply, AbstractCrdt_apply.
  destruct (op_type op); try apply keeps_ret.
  apply keeps_bind; [apply keeps_parent|]. intros parent.
  apply keeps_bind; [apply keeps_parentKey|]. intros parentKey.
  destruct parent, parentKey; try apply keeps_ret. apply keeps_detachChild.
Qed.

Lemma after_keeps_data m this h x d :
  register_data h x = Some d -> register_data (after m this h) x = Some d.
Proof.
  destruct m; simpl.
  - apply keeps_data_getter.
  - apply keeps_serialize.
  - apply keeps_toSerializedCrdt.
  - auto.
  - auto.
  - apply keeps_apply.
  - apply keeps_getParentKeyOrThrow.
  - apply keeps_doc.
  - apply keeps_roomId.
  - apply keeps_id.
  - apply keeps_parent.
  - apply keeps_parentKey.
  - apply keeps_setParentLink.
  - apply keeps_attach.
  - apply keeps_detach.
Qed.

(** C3. The [_data] of a register is never reassigned: [_apply], for every
    op and both values of the flag, leaves it as it is, and so does every
    sequence of uses of the members of the class, on this or on other
    registers. [_apply] changes nothing at all unless the op is DELETE_CRDT
    and the register has a parent and a parent key. *)
Theorem register_data_never_reassigned h this d :
  register_data h this = Some d ->
  (forall op isLocal,
     register_data (snd (LiveRegister_apply this op isLocal h)) this = Some d) /\
  (forall op isLocal,
     op_type op <> DELETE_CRDT ->
     LiveRegister_apply this op isLocal h = (Ret NotModified, h)) /\
  (forall op isLocal n,
     nodes h !! this = Some n ->
     __parent (base n) = None \/ __parentKey (base n) = None ->
     LiveRegister_apply this op isLocal h = (Ret NotModified, h)) /\
  (forall uses, register_data (after_all uses h) this = Some d).
Proof.
  intros Hd. split; [|split; [|split]].
  - intros op isLocal. apply keeps_apply, Hd.
  - intros op isLocal. apply apply_other_op.
  - intros op isLocal n Hn Hunset. unfold LiveRegister_apply.
    destruct (decide (op_type op = DELETE_CRDT)) as [Hop|Hop].
    + apply (apply_delete_unlinked _ _ _ _ _ Hn Hop Hunset).
    + apply apply_other_op, Hop.
  - intros uses. revert h Hd. unfold after_all.
    induction uses as [|[m x] uses IH]; intros h Hd; simpl.
    + exact Hd.
    + apply IH, after_keeps_data, Hd.
Qed.

End Immutability.

End Kernel.

(** *** A small document *)

(** A [Doc] for the examples: the room id, the index of attached nodes and
    a counter for op ids. It stands for the room's own, which is not among
    the sources. *)
Record SimpleDoc := {
  sd_roomId : string;
  sd_items : gmap string Ref;
  sd_clock : nat
}.

#[export] Instance SimpleDoc_Doc : Doc SimpleDoc := {|
  doc_roomId := sd_roomId;
  generateOpId := fun d =>
    ("1:" ++ pretty (sd_clock d),
     {| sd_roomId := sd_roomId d; sd_items := sd_items d;
        sd_clock := S (sd_clock d) |});
  addItem := fun id r d =>
    {| sd_roomId := sd_roomId d; sd_items := <[id := r]> (sd_items d);
       sd_clock := sd_clock d |};
  deleteItem := fun id d =>
    {| sd_roomId := sd_roomId d; sd_items := delete id (sd_items d);
       sd_clock := sd_clock d |}
|}.

(** The [nn] of a development build, for the examples: it refuses null and
    undefined with the given message, and returns any other value. *)
Definition strict_nn (A : Type) (value : option A) (errmsg : string)
    : Outcome (option A) :=
  match value with
  | Some v => Ret (Some v)
  | None => Throw errmsg
  end.

(** A structure for the examples: its children by key. *)
Definition Children := list (string * Ref).

Abbreviation ExampleStore := (@Store JsValue Children SimpleDoc).

Abbreviation ExampleNode := (@Node JsValue Children).

Definition drop_child (crdt : Ref) (n : ExampleNode) : ExampleNode :=
  match payload n with
  | StructurePayload children =>
      {| base := base n;
         payload :=
           StructurePayload
             (filter (fun entry => snd entry ≠ crdt) children) |}
  | RegisterPayload _ => n
  end.

(** The [_detachChild] of the example structure: when [crdt] is one of the
    children, it is dropped from them and detached. *)
Definition children_detachChild (parent crdt : Ref)
    : StateExn ExampleStore (@ApplyResult JsValue string) :=
  p ← node parent;
  match payload p with
  | StructurePayload children =>
      match find (fun entry => bool_decide (snd entry = crdt)) children with
      | Some (key, _) =>
          modify (set_nodes (alter (drop_child crdt) parent));;
          _detach crdt;;
          mret (Modified [] key)
      | None => mret NotModified
      end
  | RegisterPayload _ => throw type_error
  end.

Definition example_root : ExampleNode :=
  {| base := {| __parent := None; __doc := Some 10%positive;
                __id := Some "0:0"; __parentKey := None |};
     payload := StructurePayload [("title", 2%positive)] |}.

(** A register attached under the key "title" of the root. *)
Definition example_register : ExampleNode :=
  {| base := {| __parent := Some 1%positive; __doc := Some 10%positive;
                __id := Some "1:0"; __parentKey := Some "title" |};
     payload := RegisterPayload (JString "hello") |}.

(** A register that was constructed and not attached. *)
Definition example_detached : ExampleNode :=
  {| base := detached; payload := RegisterPayload (JBoolean true) |}.

Definition example_doc : SimpleDoc :=
  {| sd_roomId := "r1";
     sd_items := {[ "0:0" := 1%positive; "1:0" := 2%positive ]};
     sd_clock := 0 |}.

Definition example_store : ExampleStore :=
  {| nodes := {[ 1%positive := example_root; 2%positive := example_register;
                 3%positive := example_detached ]};
     docs := {[ 10%positive := example_doc ]};
     next_ref := 11%positive |}.

Definition delete_op : @Op JsValue :=
  {| op_type := DELETE_CRDT; opId := Some "2:0"; op_id := "1:0";
     op_parentId := None; op_parentKey := None; op_data := None |}.

Lemma children_keeps_data parent crdt :
  keeps_data (children_detachChild parent crdt).
Proof.
  unfold children_detachChild.
  apply keeps_bind; [apply keeps_node|]. intros p.
  destruct (payload p) as [|children]; [apply keeps_throw|].
  destruct (find _ children) as [[key r]|]; [|apply keeps_ret].
  apply keeps_bind; [|intros _; apply keeps_bind;
                       [apply keeps_detach | intros; apply keeps_ret]].
  apply keeps_alter. intros [b [v|c]]; simpl; auto.
Qed.

(** [setParentLink_single_parent] on the attached register of the example:
    another parent is refused, the same parent is accepted with a new key. *)
Lemma setParentLink_single_parent_witness :
  nodes example_store !! 2%positive = Some example_register /\
  _setParentLink 2%positive 3%positive "title" example_store =
    (Throw "Cannot attach parent if it already exist", example_store) /\
  _setParentLink 2%positive 1%positive "heading" example_store =
    (Ret tt,
     set_nodes
       (insert 2%positive
          {| base := {| __parent := Some 1%positive; __doc := Some 10%positive;
                        __id := Some "1:0"; __parentKey := Some "heading" |};
             payload := RegisterPayload (JString "hello") |})
       example_store).
Proof.
  assert (nodes example_store !! 2%positive = Some example_register) as Hn
    by reflexivity.
  split; [exact Hn|]. split.
  - apply (proj1 (setParentLink_single_parent
                    example_store 2%positive example_register 3%positive
                    "title" Hn) 1%positive);
      [reflexivity | discriminate].
  - apply (proj1 (proj2 (setParentLink_single_parent
                    example_store 2%positive example_register 1%positive
                    "heading" Hn))).
    right. reflexivity.
Defined.

(** [AbstractCrdt_apply_cases] on the attached register of the example: a
    DELETE_CRDT op is handed to the root's [_detachChild], which drops the
    register from its children and detaches it. *)
Lemma AbstractCrdt_apply_cases_witness :
  nodes example_store !! 2%positive = Some example_register /\
  AbstractCrdt_apply children_detachChild 2%positive delete_op false example_store =
    _detachChild children_detachChild 1%positive 2%positive example_store /\
  fst (AbstractCrdt_apply children_detachChild 2%positive delete_op false
         example_store) = Ret (Modified [] "title").
Proof.
  assert (nodes example_store !! 2%positive = Some example_register) as Hn
    by reflexivity.
  pose proof (proj2 (proj2 (AbstractCrdt_apply_cases children_detachChild
                example_store 2%positive example_register delete_op false Hn))
                1%positive "title" eq_refl eq_refl eq_refl) as H.
  split; [exact Hn|]. split; [exact H|]. rewrite H. vm_compute. reflexivity.
Defined.

(** C4, as the spec states it, fails: the attached register of the example,
    whose id is "1:0", returns no op when it is given no parent id; it
    throws. *)
Lemma serialize_attached_without_parent_id_throws :
  nodes example_store !! 2%positive = Some example_register /\
  __id (base example_register) = Some "1:0" /\
  _serialize 2%positive None (Some "title") None example_store =
    (Throw "Cannot serialize register if parentId or parentKey is undefined",
     example_store) /\
  ~ (exists ops h',
       _serialize 2%positive None (Some "title") None example_store =
         (Ret ops, h')).
Proof.
  repeat split. intros (ops & h' & H). vm_compute in H. discriminate.
Qed.

(** [serialize_only_when_attached] on the attached register of the example. *)
Lemma serialize_only_when_attached_witness :
  nodes example_store !! 2%positive = Some example_register /\
  payload example_register = RegisterPayload (JString "hello") /\
  exists generated h',
    _serialize 2%positive (Some "0:0") (Some "title") (Some 10%positive)
      example_store =
      (Ret [ {| op_type := CREATE_REGISTER; opId := generated;
                op_id := "1:0"; op_parentId := Some "0:0";
                op_parentKey := Some "title";
                op_data := Some (JString "hello") |} ], h') /\
    nodes h' = nodes example_store.
Proof.
  assert (nodes example_store !! 2%positive = Some example_register) as Hn
    by reflexivity.
  assert (forall r, Some 10%positive = Some r ->
                    is_Some (docs example_store !! r)) as Hdoc.
  { intros r [= <-]. exists example_doc. reflexivity. }
  split; [exact Hn|]. split; [reflexivity|].
  destruct (proj2 (proj2 (serialize_only_when_attached
                     example_store 2%positive example_register
                     (JString "hello") (Some "0:0") (Some "title")
                     (Some 10%positive) Hn eq_refl Hdoc))
                  "1:0" "0:0" "title" eq_refl eq_refl eq_refl)
    as (generated & h' & Hrun & Hnodes & _).
  exists generated, h'. split; assumption.
Defined.

(** [register_data_never_reassigned] on the example: the register keeps its
    value through a DELETE_CRDT op that detaches it and through a later
    [_detach] and [_setParentLink]. *)
Lemma register_data_never_reassigned_witness :
  register_data example_store 2%positive = Some (JString "hello") /\
  register_data
    (snd (LiveRegister_apply children_detachChild 2%positive delete_op true
            example_store)) 2%positive = Some (JString "hello") /\
  register_data
    (after_all strict_nn children_detachChild
       [(Call_apply delete_op false, 2%positive);
        (Call_detach, 2%positive);
        (Call_setParentLink 1%positive "title", 2%positive)]
       example_store) 2%positive = Some (JString "hello").
Proof.
  assert (register_data example_store 2%positive = Some (JString "hello"))
    as Hd by reflexivity.
  destruct (register_data_never_reassigned strict_nn children_detachChild
              children_keeps_data example_store 2%positive (JString "hello") Hd)
    as (Happly & _ & _ & Hall).
  split; [exact Hd|]. split; [apply Happly | apply Hall].
Defined.

(** *** The example document, step by step *)

(** The example store once the detached register was linked under the
    attached one. *)
Definition example_nested : ExampleStore :=
  snd (_setParentLink 3%positive 2%positive "note" example_store).

Definition example_item : @SerializedRegister JsValue :=
  {| ser_parentId := Some "0:0"; ser_parentKey := Some "title";
     ser_data := JString "hello" |}.

(** The example store once the detached register was attached under the id
    "2:0", and that store once the register was detached again. *)
Definition example_attached : ExampleStore :=
  snd (_attach 3%positive "2:0" 10%positive example_store).

Definition example_reattached : ExampleStore :=
  after_all strict_nn children_detachChild [(Call_detach, 3%positive)]
    example_attached.

Lemma attach_twice_throws_witness :
  _attach 3%positive "2:0" 10%positive example_store =
    (Ret tt, example_attached) /\
  _attach 3%positive "2:1" 10%positive example_attached =
    (Throw "Cannot attach if CRDT is already attached", example_attached) /\
  _attach 3%positive "2:1" 10%positive example_reattached =
    (Throw "Cannot attach if CRDT is already attached", example_reattached).
Proof.
  assert (_attach 3%positive "2:0" 10%positive example_store =
          (Ret tt, example_attached)) as H by (vm_compute; reflexivity).
  destruct (attach_twice_throws strict_nn children_detachChild _ _ _ _ _ H)
    as [Hnow Hlater].
  split; [exact H|]. split; [apply Hnow|].
  apply Hlater; [discriminate|].
  intros m x [[= <- <-]|[]] op isLocal. discriminate.
Defined.

(** The id matters: a node attached under the empty id and then detached can
    be attached again. *)
Remark empty_id_can_be_attached_again :
  let h1 := snd (_attach 3%positive "" 10%positive example_store) in
  let h2 := snd (_detach 3%positive h1) in
  fst (_attach 3%positive "" 10%positive example_store) = Ret tt /\
  fst (_detach 3%positive h1) = Ret tt /\
  fst (_attach 3%positive "5:0" 10%positive h2) = Ret tt.
Proof. vm_compute. repeat split. Qed.

Lemma detached_node_stays_identified_witness :
  nodes example_store !! 2%positive = Some example_register /\
  _detach 2%positive example_store =
    (Ret tt, snd (_detach 2%positive example_store)) /\
  _id 2%positive (snd (_detach 2%positive example_store)) =
    (Ret (Some "1:0"), snd (_detach 2%positive example_store)) /\
  _attach 2%positive "1:0" 10%positive (snd (_detach 2%positive example_store)) =
    (Throw "Cannot attach if CRDT is already attached",
     snd (_detach 2%positive example_store)).
Proof.
  assert (nodes example_store !! 2%positive = Some example_register) as Hn
    by reflexivity.
  assert (_detach 2%positive example_store =
          (Ret tt, snd (_detach 2%positive example_store))) as H
    by (vm_compute; reflexivity).
  destruct (detached_node_stays_identified children_detachChild
              example_store 2%positive example_register _ Hn H)
    as (_ & _ & _ & Hid & _ & _ & Hattach).
  split; [exact Hn|]. split; [exact H|]. split; [exact Hid|].
  apply Hattach. reflexivity.
Defined.

Lemma register_parent_is_not_implemented_witness :
  AbstractCrdt_apply children_detachChild 3%positive delete_op true
    example_nested =
  (Throw "Method not implemented.", example_nested).
Proof.
  refine (proj2 (proj2 (register_parent_is_not_implemented children_detachChild
                          example_nested))
                3%positive (linked 2%positive "note" example_detached)
                2%positive "note" example_register (JString "hello")
                delete_op true _ eq_refl eq_refl _ eq_refl eq_refl);
    vm_compute; reflexivity.
Defined.

Lemma serialized_register_round_trip_witness :
  _toSerializedCrdt strict_nn 2%positive example_store =
    (Ret example_item, example_store) /\
  docs example_store !! 10%positive = Some example_doc /\
  exists h',
    _deserialize "3:0" example_item 10%positive example_store =
      (Ret 11%positive, h') /\
    register_data h' 11%positive = Some (JString "hello").
Proof.
  assert (_toSerializedCrdt strict_nn 2%positive example_store =
          (Ret example_item, example_store)) as Hser by (vm_compute; reflexivity).
  assert (docs example_store !! 10%positive = Some example_doc) as Hdoc
    by reflexivity.
  split; [exact Hser|]. split; [exact Hdoc|].
  destruct (serialized_register_round_trip strict_nn example_store 2%positive
              example_item
              example_store "3:0" 10%positive example_doc Hser Hdoc)
    as (_ & _ & h' & Hrun & Hdata & _).
  exists h'. split; [exact Hrun | exact Hdata].
Defined.

Lemma deserialize_then_serialize_witness :
  docs example_store !! 10%positive = Some example_doc /\
  exists h',
    _deserialize "3:0" example_item 10%positive example_store =
      (Ret 11%positive, h') /\
    _serialize 11%positive (Some "0:0") (Some "subtitle") None h' =
      (Ret [ {| op_type := CREATE_REGISTER; opId := None; op_id := "3:0";
                op_parentId := Some "0:0"; op_parentKey := Some "subtitle";
                op_data := Some (JString "hello") |} ], h').
Proof.
  assert (docs example_store !! 10%positive = Some example_doc) as Hdoc
    by reflexivity.
  split; [exact Hdoc|].
  destruct (deserialize_then_serialize example_store "3:0" example_item
              10%positive example_doc "0:0" "subtitle" Hdoc)
    as (h' & Hrun & _ & Hser).
  exists h'. split; [exact Hrun | exact Hser].
Defined.

Lemma setParentLink_then_read_witness :
  _setParentLink 3%positive 2%positive "note" example_store =
    (Ret tt, example_nested) /\
  _parent 3%positive example_nested = (Ret (Some 2%positive), example_nested) /\
  _getParentKeyOrThrow 3%positive example_nested = (Ret "note", example_nested) /\
  _setParentLink 3%positive 1%positive "note" example_nested =
    (Throw "Cannot attach parent if it already exist", example_nested).
Proof.
  assert (_setParentLink 3%positive 2%positive "note" example_store =
          (Ret tt, example_nested)) as H by (vm_compute; reflexivity).
  destruct (setParentLink_then_read example_store 3%positive 2%positive "note"
              example_nested H) as (Hp & _ & Hk & _ & _ & Hother).
  split; [exact H|]. split; [exact Hp|]. split; [exact Hk|].
  apply Hother. discriminate.
Defined.

Lemma members_touch_only_this_witness :
  1%positive <> 2%positive /\
  nodes (after strict_nn children_detachChild Call_detach 2%positive
           example_store)
    !! 1%positive = Some example_root.
Proof.
  assert (1%positive <> 2%positive) as Hne by discriminate.
  split; [exact Hne|].
  rewrite (members_touch_only_this strict_nn children_detachChild Call_detach
             2%positive
             example_store 1%positive Hne);
    [reflexivity | discriminate].
Defined.

Lemma new_register_is_inert_witness :
  LiveRegister_new (JString "draft") example_store =
    (Ret 11%positive, snd (LiveRegister_new (JString "draft") example_store)) /\
  data 11%positive (snd (LiveRegister_new (JString "draft") example_store)) =
    (Ret (JString "draft"),
     snd (LiveRegister_new (JString "draft") example_store)) /\
  _getParentKeyOrThrow 11%positive
    (snd (LiveRegister_new (JString "draft") example_store)) =
    (Throw "Parent key is missing",
     snd (LiveRegister_new (JString "draft") example_store)).
Proof.
  assert (LiveRegister_new (JString "draft") example_store =
          (Ret 11%positive,
           snd (LiveRegister_new (JString "draft") example_store))) as H
    by reflexivity.
  destruct (new_register_is_inert children_detachChild (JString "draft")
              example_store 11%positive _ H) as (Hd & _ & Hk & _).
  split; [exact H|]. split; [exact Hd | exact Hk].
Defined.

End Crdt.
